(** * Reading-comprehension quiz: grading and study records

    A shallow embedding of the grading functions ([getScore],
    [checkAnswerCorrectness]), the record store ([saveAnswers],
    [getAttemptCount], [clearAllAnswers], the initial load in [App]), the
    quiz completion handler ([handleFinishQuiz]) and the history
    categorization ([categorizedAttempts]) of the application, with the
    properties of the specification stated over them. *)

From Stdlib Require Import ZArith String Ascii DecimalString.
From Stdlib Require DecimalPos DecimalZ.
From stdpp Require Import gmap list sorting.

Local Open Scope Z_scope.

(** ** JavaScript strings *)

(** A JavaScript string is a sequence of UTF-16 code units. *)
Abbreviation jsstring := (list N).

(** A string literal of the source (ASCII only). *)
Definition lit (s : string) : jsstring :=
  N_of_ascii <$> list_ascii_of_string s.

(** The code units [String.prototype.trim] strips: WhiteSpace and
    LineTerminator of ECMAScript. All of them lie in the basic plane, so
    trimming works code unit by code unit. *)
Definition isWhiteSpace (c : N) : bool :=
  ((c =? 9) || (c =? 10) || (c =? 11) || (c =? 12) || (c =? 13) ||
   (c =? 32) || (c =? 160) || (c =? 5760) ||
   ((8192 <=? c) && (c <=? 8202)) ||
   (c =? 8232) || (c =? 8233) || (c =? 8239) || (c =? 8287) ||
   (c =? 12288) || (c =? 65279))%N.

Fixpoint trimStart (s : jsstring) : jsstring :=
  match s with
  | c :: s' => if isWhiteSpace c then trimStart s' else s
  | [] => []
  end.

Definition trimEnd (s : jsstring) : jsstring := rev (trimStart (rev s)).

Definition trim (s : jsstring) : jsstring := trimEnd (trimStart s).

(** [Number.prototype.toString] on an integer: its decimal numeral. *)
Definition toString (n : Z) : jsstring :=
  lit (NilZero.string_of_int (Z.to_int n)).

(** ** Data model (types.ts) *)

(** [string | string[]]: the type of [Question.a] and of [UserAnswer]. *)
Inductive StringOrStrings : Type :=
  | Str (s : jsstring)
  | Arr (l : list jsstring).

Abbreviation UserAnswer := StringOrStrings.

(** [type] is declared as one of three literals, but it is a string at run
    time and the code switches on its value. *)
Record Question : Type := {
  q_type : jsstring;
  q_q : jsstring;
  q_options : option (list jsstring);
  q_a : StringOrStrings
}.

Record Excerpt : Type := {
  e_id : Z;
  e_subtitle : jsstring;
  e_text : jsstring;
  e_notes : gmap jsstring jsstring;
  e_questions : list Question
}.

Record Work : Type := {
  w_id : jsstring;
  w_author : jsstring;
  w_title : jsstring;
  w_description : jsstring;
  w_excerpts : list Excerpt
}.

Record AnswerData : Type := {
  answers : gmap jsstring UserAnswer;
  studyTime : Z;
  timestamp : Z
}.

(** [UserAnswers]: work id, then excerpt id, then the list of attempts. *)
Abbreviation UserAnswers := (gmap jsstring (gmap jsstring (list AnswerData))).

(** ** Array helpers *)

(** [Array.prototype.every] with the element and its index. *)
Fixpoint every_from {A} (p : A → nat → bool) (i : nat) (l : list A) : bool :=
  match l with
  | [] => true
  | x :: l' => p x i && every_from p (S i) l'
  end.

Definition every {A} (p : A → nat → bool) (l : list A) : bool :=
  every_from p 0 l.

(** [Array.prototype.includes] on an array of strings. *)
Definition includes (l : list jsstring) (s : jsstring) : bool :=
  bool_decide (s ∈ l).

(** [x === y] on [string | string[]] values. Two strings are compared by
    content; an array is equal only to itself, and a submitted array is
    never the array object of the answer key. *)
Definition strictEq (x y : StringOrStrings) : bool :=
  match x, y with
  | Str s, Str t => bool_decide (s = t)
  | _, _ => false
  end.

(** [ans.trim() === a[i]]: the right side is [undefined] out of range. *)
Definition trimmedIs (a : list jsstring) (ans : jsstring) (i : nat) : bool :=
  match a !! i with
  | Some x => bool_decide (trim ans = x)
  | None => false
  end.

(** ** Grading *)

(** The [switch] of [checkAnswerCorrectness] (QuizPage). *)
Definition checkAnswerCorrectness (question : Question) (userAnswer : UserAnswer) : bool :=
  if bool_decide (q_type question = lit "multiple-choice") then
    strictEq userAnswer (q_a question)
  else if bool_decide (q_type question = lit "extraction") then
    match q_a question with
    | Arr a =>
        match userAnswer with
        | Str u => includes (trim <$> a) (trim u)
        | Arr _ => false
        end
    | Str a =>
        match userAnswer with
        | Str u => bool_decide (trim u = a)
        | Arr _ => false
        end
    end
  else if bool_decide (q_type question = lit "fill-in-the-blank") then
    match userAnswer, q_a question with
    | Arr u, Arr a =>
        if bool_decide (length u = length a) then every (trimmedIs a) u
        else false
    | _, _ => false
    end
  else false.

Record QuestionResult : Type := {
  isCorrect : bool;
  userAnswer : UserAnswer;
  correctAnswer : StringOrStrings
}.

Record Score : Type := {
  correct : nat;
  total : nat;
  results : list QuestionResult
}.

(** The callback of [excerpt.questions.map] in [getScore], without the
    counter: the result for question [q] at position [index]. *)
Definition gradeQuestion (answerData : AnswerData) (q : Question) (index : nat)
  : QuestionResult :=
  match answers answerData !! toString (Z.of_nat index) with
  | None => {| isCorrect := false; userAnswer := Str []; correctAnswer := q_a q |}
  | Some userAnswer =>
      let isCorrect :=
        if bool_decide (q_type q = lit "multiple-choice") then
          strictEq userAnswer (q_a q)
        else if bool_decide (q_type q = lit "extraction") then
          match q_a q with
          | Arr a =>
              match userAnswer with
              | Str u => includes (trim <$> a) (trim u)
              | Arr _ => false
              end
          | Str a =>
              match userAnswer with
              | Str u => bool_decide (trim u = a)
              | Arr _ => false
              end
          end
        else if bool_decide (q_type q = lit "fill-in-the-blank") then
          match userAnswer, q_a q with
          | Arr u, Arr a =>
              if bool_decide (length u = length a) then every (trimmedIs a) u
              else false
          | _, _ => false
          end
        else false in
      {| isCorrect := isCorrect; userAnswer := userAnswer; correctAnswer := q_a q |}
  end.

(** The [map] of [getScore] with its counter [correctCount] threaded
    through the calls of the callback. *)
Fixpoint gradeQuestions (answerData : AnswerData) (qs : list Question)
    (index correctCount : nat) : nat * list QuestionResult :=
  match qs with
  | [] => (correctCount, [])
  | q :: qs' =>
      let r := gradeQuestion answerData q index in
      let correctCount := if isCorrect r then S correctCount else correctCount in
      let '(n, rs) := gradeQuestions answerData qs' (S index) correctCount in
      (n, r :: rs)
  end.

(** [getScore]; [None] stands for a missing ([undefined]) argument. *)
Definition getScore (excerpt : option Excerpt) (answerData : option AnswerData) : Score :=
  match excerpt, answerData with
  | Some excerpt, Some answerData =>
      let '(correctCount, results) :=
        gradeQuestions answerData (e_questions excerpt) 0 0 in
      {| correct := correctCount;
         total := length (e_questions excerpt);
         results := results |}
  | _, _ => {| correct := 0; total := 0; results := [] |}
  end.

(** ** Record store (App) *)

(** [saveAnswers]: the updater passed to [setAnswers], applied to the
    previous store. [now] is the value of [Date.now()] in the call. *)
Definition saveAnswers (now : Z) (workId : jsstring) (excerptId : Z)
    (userAnswers : gmap jsstring UserAnswer) (studyTime : Z)
    (prev : UserAnswers) : UserAnswers :=
  let answerData :=
    {| answers := userAnswers; studyTime := studyTime; timestamp := now |} in
  let currentWorkAnswers := default ∅ (prev !! workId) in
  let existingAttempts := default [] (currentWorkAnswers !! toString excerptId) in
  <[workId := <[toString excerptId := existingAttempts ++ [answerData]]>
                currentWorkAnswers]> prev.

(** [answers[workId]?.[excerptId.toString()]]: the attempts stored for a
    pair, when there are any. *)
Definition storedAttempts (answers : UserAnswers) (workId : jsstring)
    (excerptId : Z) : option (list AnswerData) :=
  answers !! workId ≫= λ excerpts, excerpts !! toString excerptId.

(** [getAttemptCount]: [... ?.length || 0]. *)
Definition getAttemptCount (answers : UserAnswers) (workId : jsstring)
    (excerptId : Z) : nat :=
  match storedAttempts answers workId excerptId with
  | Some attempts => length attempts
  | None => 0%nat
  end.

(** [clearAllAnswers]: [setAnswers({})]. *)
Definition clearAllAnswers (prev : UserAnswers) : UserAnswers := ∅.

(** *** Initial state *)

(** A call that either returns or throws. *)
Inductive outcome (A : Type) : Type :=
  | Returns (v : A)
  | Throws.
Arguments Returns {A} v.
Arguments Throws {A}.

(** [try { body } catch (error) { ...; return handler }]. *)
Definition tryCatch {A} (body : outcome A) (handler : A) : A :=
  match body with
  | Returns v => v
  | Throws => handler
  end.

Section InitialState.
(** [JSON.parse], which throws on text that is not JSON. What it returns
    is taken as a store without any check, as the code does. *)
Variable JSON_parse : jsstring → outcome UserAnswers.

(** The initializer of the [answers] state. [getItem] is the outcome of
    [localStorage.getItem('userAnswers')]: it throws, or returns [null]
    ([None]) or the saved text. The empty text is falsy. *)
Definition initialAnswers (getItem : outcome (option jsstring)) : UserAnswers :=
  tryCatch
    (match getItem with
     | Throws => Throws
     | Returns None => Returns ∅
     | Returns (Some saved) =>
         if bool_decide (saved = []) then Returns ∅ else JSON_parse saved
     end)
    ∅.
End InitialState.

(** ** Quiz completion (QuizPage) *)

Record ShuffledQuestion : Type := {
  sq_question : Question;
  originalIndex : nat
}.

(** [v || d] on an answer read from an object: [undefined] and the empty
    string are falsy, every array is truthy. *)
Definition orElse (v : option UserAnswer) (d : UserAnswer) : UserAnswer :=
  match v with
  | None => d
  | Some (Str []) => d
  | Some x => x
  end.

(** The [forEach] of [handleFinishQuiz] that builds [orderedAnswers]. *)
Fixpoint orderAnswers (userAnswers : gmap jsstring UserAnswer)
    (qs : list ShuffledQuestion) (displayIndex : nat)
    (orderedAnswers : gmap jsstring UserAnswer) : gmap jsstring UserAnswer :=
  match qs with
  | [] => orderedAnswers
  | q :: qs' =>
      let fallback :=
        if bool_decide (q_type (sq_question q) = lit "fill-in-the-blank")
        then Arr [] else Str [] in
      orderAnswers userAnswers qs' (S displayIndex)
        (<[toString (Z.of_nat (originalIndex q)) :=
             orElse (userAnswers !! toString (Z.of_nat displayIndex)) fallback]>
           orderedAnswers)
  end.

(** [Math.round(ms / 1000)] for an integer number of milliseconds: the
    nearest integer, a half rounded up. *)
Definition roundSeconds (ms : Z) : Z := (ms + 500) / 1000.

(** The study time [handleFinishQuiz] passes to [saveAnswers]. *)
Definition finishStudyTime (now startTime : Z) : Z :=
  let studyTimeInSeconds := roundSeconds (now - startTime) in
  if bool_decide (0 < studyTimeInSeconds) then studyTimeInSeconds else 1.

(** [handleFinishQuiz] as an update of the store. [now] is [Date.now()] in
    the handler, [savedAt] is [Date.now()] inside [saveAnswers]. *)
Definition handleFinishQuiz (now savedAt startTime : Z) (work : Work)
    (excerpt : Excerpt) (shuffledQuestions : list ShuffledQuestion)
    (userAnswers : gmap jsstring UserAnswer) (prev : UserAnswers) : UserAnswers :=
  let orderedAnswers := orderAnswers userAnswers shuffledQuestions 0 ∅ in
  saveAnswers savedAt (w_id work) (e_id excerpt) orderedAnswers
    (finishStudyTime now startTime) prev.

(** ** History categorization (RecordsPage) *)

(** An element of [allAttempts]: [{ workId, excerptId, score, ...attempt }]. *)
Record ScoredAttempt : Type := {
  sa_workId : jsstring;
  sa_excerptId : Z;
  sa_score : Score;
  sa_attempt : AnswerData
}.

(** The comparator [(a, b) => b.timestamp - a.timestamp] puts [a] before
    [b] when it is not older than [b]. *)
Definition newerFirst (a b : ScoredAttempt) : Prop :=
  timestamp (sa_attempt b) ≤ timestamp (sa_attempt a).

#[global] Instance newerFirst_dec : RelDecision newerFirst.
Proof. intros a b. unfold newerFirst. apply _. Defined.

(** The inner [flatMap] callback: the attempts of one excerpt of one work,
    each with its score; nothing when the work or the excerpt is not in
    [works]. [Number(excerptId)] is the id of the excerpt found, since the
    key equals [e.id.toString()]. *)
Definition scoredAttemptsOf (works : list Work) (workId excerptId : jsstring)
    (attempts : list AnswerData) : list ScoredAttempt :=
  match find (λ w, bool_decide (w_id w = workId)) works with
  | None => []
  | Some work =>
      match find (λ e, bool_decide (toString (e_id e) = excerptId))
                 (w_excerpts work) with
      | None => []
      | Some excerpt =>
          (λ attempt,
             {| sa_workId := workId;
                sa_excerptId := e_id excerpt;
                sa_score := getScore (Some excerpt) (Some attempt);
                sa_attempt := attempt |}) <$> attempts
      end
  end.

(** [allAttempts]. [Object.entries] is the list of the entries of the map;
    the order of enumeration only decides the relative order of attempts
    with equal timestamps. *)
Definition allAttempts (works : list Work) (answers : UserAnswers)
  : list ScoredAttempt :=
  merge_sort newerFirst
    ('(workId, excerpts) ← map_to_list answers;
     '(excerptId, attempts) ← map_to_list excerpts;
     scoredAttemptsOf works workId excerptId attempts).

(** The keys of the [categories] object. *)
Inductive CategoryKey : Type :=
  | today | yesterday | sevenDays | thirtyDays | older.

#[global] Instance CategoryKey_eq_dec : EqDecision CategoryKey.
Proof. solve_decision. Defined.

Record Category : Type := {
  title : jsstring;
  attempts : list ScoredAttempt;
  totalTime : Z
}.

(** The [categories] object literal, in the order of its keys. *)
Definition initialCategories : list (CategoryKey * Category) :=
  [ (today,      {| title := [20170; 26085; 12398; 35352; 37682]%N;
                    attempts := []; totalTime := 0 |});
    (yesterday,  {| title := [26152; 26085; 12398; 35352; 37682]%N;
                    attempts := []; totalTime := 0 |});
    (sevenDays,  {| title := [36942; 21435; 55; 26085; 38291; 12398; 35352; 37682]%N;
                    attempts := []; totalTime := 0 |});
    (thirtyDays, {| title := [36942; 21435; 51; 48; 26085; 38291; 12398; 35352; 37682]%N;
                    attempts := []; totalTime := 0 |});
    (older,      {| title := [12381; 12428; 12424; 12426; 21069; 12398; 35352; 37682]%N;
                    attempts := []; totalTime := 0 |}) ].

(** *** Dates *)

Definition msPerDay : Z := 86400000.

(** The largest time value of a [Date]. *)
Definition maxTime : Z := 8640000000000000.

(** A [Date] is its time value in milliseconds, or [None] for an invalid
    date. [TimeClip] of an integer. *)
Definition TimeClip (t : Z) : option Z :=
  if bool_decide (Z.abs t ≤ maxTime) then Some t else None.

(** [new Date(value)] from a number of milliseconds. *)
Definition newDate (value : Z) : option Z := TimeClip value.

(** [a >= b] on dates: the time values are compared, and the comparison
    with an invalid date is false. *)
Definition dateGe (a b : option Z) : bool :=
  match a, b with
  | Some x, Some y => bool_decide (y ≤ x)
  | _, _ => false
  end.

(** [Day(t)] and [TimeWithinDay(t)] of ECMAScript: the number of the day
    of a time value and the milliseconds into that day. *)
Definition Day (t : Z) : Z := t `div` msPerDay.
Definition TimeWithinDay (t : Z) : Z := t `mod` msPerDay.

(** [MakeDate(day, time)]. *)
Definition MakeDate (day time : Z) : Z := day * msPerDay + time.

(** The [Date] constructor reads a year from 0 to 99 as the year 1900
    years later ([MakeFullYear]). [twoDigitYear day] tells that [day] is a
    day of such a year: from 0000-01-01, the day -719528, to 0099-12-31,
    the day before -683003. *)
Definition twoDigitYear (day : Z) : bool :=
  bool_decide (-719528 ≤ day < -683003).

(** [MakeDay(MakeFullYear(y), m, d)] for the year, the month and the date
    of the day [day]: the day that the constructor makes of the fields of
    a date. Outside of the years 0 to 99 it is [day] again. A year from 1
    to 99 is a leap year when the year 1900 years later is one, so its
    days move by the 693960 days from 0001-01-01 to 1901-01-01. The year 0
    is a leap year and 1900 is not: its days up to the 29th of February,
    the day -719469, move by one day more, and the 29th of February
    becomes the 1st of March 1900. *)
Definition constructorDay (day : Z) : Z :=
  if twoDigitYear day
  then if bool_decide (day ≤ -719469) then day + 693961 else day + 693960
  else day.

Section LocalTime.
(** [LocalTZA(t, isUTC)] of ECMAScript, the time zone of the browser: the
    offset of local time from UTC in milliseconds, at the instant [t] when
    [isUTC] is true and at the local time value [t] when it is false. It
    changes where the zone changes its clocks. *)
Variable LocalTZA : Z → bool → Z.

(** [LocalTime(t)] and [UTC(t)] of ECMAScript. *)
Definition LocalTime (t : Z) : Z := t + LocalTZA t true.
Definition UTC (t : Z) : Z := t - LocalTZA t false.

(** [new Date(now.getFullYear(), now.getMonth(), now.getDate())]: midnight
    in local time of the local day of [now]. The year, the month and the
    date are those of the local time of [now], and the day that the
    constructor makes of them is the day of that local time, but for the
    years 0 to 99. *)
Definition startOfDay (now : Z) : option Z :=
  TimeClip (UTC (MakeDate (constructorDay (Day (LocalTime now))) 0)).

(** [d = new Date(date); d.setDate(date.getDate() - days)]: the same time
    of day in local time, [days] days of the calendar earlier. [MakeDay]
    for the year and the month of a local time [t] and its date less
    [days] is [Day(t) - days]; an invalid date stays invalid. *)
Definition daysBefore (date : option Z) (days : Z) : option Z :=
  date ≫= λ tv,
    let t := LocalTime tv in
    TimeClip (UTC (MakeDate (Day t - days) (TimeWithinDay t))).

Definition todayStart (now : Z) : option Z := startOfDay now.
Definition yesterdayStart (now : Z) : option Z := daysBefore (todayStart now) 1.
Definition sevenDaysAgo (now : Z) : option Z := daysBefore (todayStart now) 7.
Definition thirtyDaysAgo (now : Z) : option Z := daysBefore (todayStart now) 30.

(** The [if] chain of the [forEach] callback. *)
Definition categoryKeyOf (now : Z) (attempt : ScoredAttempt) : CategoryKey :=
  let attemptDate := newDate (timestamp (sa_attempt attempt)) in
  if dateGe attemptDate (todayStart now) then today
  else if dateGe attemptDate (yesterdayStart now) then yesterday
  else if dateGe attemptDate (sevenDaysAgo now) then sevenDays
  else if dateGe attemptDate (thirtyDaysAgo now) then older
  else older.

(** [categories[categoryKey].attempts.push(attempt)] and
    [categories[categoryKey].totalTime += attempt.studyTime]. *)
Definition addAttempt (categoryKey : CategoryKey) (attempt : ScoredAttempt)
    (categories : list (CategoryKey * Category)) : list (CategoryKey * Category) :=
  (λ '(key, data),
     if decide (key = categoryKey)
     then (key, {| title := title data;
                   attempts := attempts data ++ [attempt];
                   totalTime := totalTime data + studyTime (sa_attempt attempt) |})
     else (key, data)) <$> categories.

(** The [forEach] over [allAttempts]. *)
Definition categorize (now : Z) (all : list ScoredAttempt)
    (categories : list (CategoryKey * Category)) : list (CategoryKey * Category) :=
  fold_left (λ categories attempt,
               addAttempt (categoryKeyOf now attempt) attempt categories)
            all categories.

(** [categorizedAttempts]: the entries of [categories] that have an
    attempt. *)
Definition categorizedAttempts (works : list Work) (now : Z)
    (answers : UserAnswers) : list (CategoryKey * Category) :=
  filter (λ '(_, data), (0 < length (attempts data))%nat)
         (categorize now (allAttempts works answers) initialCategories).
End LocalTime.

(** * Properties *)

(** ** Grading *)

(** The submission [ua] to question [q] is graded [b]: the check of the
    quiz page returns [b], and wherever [q] is the question at a position
    of an excerpt and [ua] the answer stored for that position, the result
    of [getScore] there carries the verdict [b], the submission and the
    accepted answer. *)
Definition gradesAs (q : Question) (ua : UserAnswer) (b : bool) : Prop :=
  checkAnswerCorrectness q ua = b ∧
  ∀ (e : Excerpt) (ad : AnswerData) (i : nat),
    e_questions e !! i = Some q →
    answers ad !! toString (Z.of_nat i) = Some ua →
    results (getScore (Some e) (Some ad)) !! i =
      Some {| isCorrect := b; userAnswer := ua; correctAnswer := q_a q |}.

Section Grading.
Implicit Types (q : Question) (ua : UserAnswer) (ad : AnswerData).
Implicit Types (a u : list jsstring).

Lemma every_from_spec {A} (p : A → nat → bool) (l : list A) (i : nat) :
  every_from p i l = true ↔
  ∀ (k : nat) (x : A), l !! k = Some x → p x (i + k)%nat = true.
Proof.
  revert i. induction l as [|y l IH]; intros i; simpl.
  - split; [intros _ k x Hk; by destruct k | done].
  - rewrite andb_true_iff, IH. split.
    + intros [Hy Hl] [|k] x Hk; simpl in Hk.
      * injection Hk as <-. by rewrite Nat.add_0_r.
      * replace (i + S k)%nat with (S i + k)%nat by lia. by apply Hl.
    + intros H. split.
      * rewrite <- (Nat.add_0_r i). by apply (H 0%nat).
      * intros k x Hk. replace (S i + k)%nat with (i + S k)%nat by lia.
        by apply (H (S k)).
Qed.


Lemma gradeQuestion_present q ua ad (i : nat) :
  answers ad !! toString (Z.of_nat i) = Some ua →
  gradeQuestion ad q i =
    {| isCorrect := checkAnswerCorrectness q ua;
       userAnswer := ua; correctAnswer := q_a q |}.
Proof. intros H. unfold gradeQuestion. by rewrite H. Qed.

Lemma gradeQuestion_missing q ad (i : nat) :
  answers ad !! toString (Z.of_nat i) = None →
  gradeQuestion ad q i =
    {| isCorrect := false; userAnswer := Str []; correctAnswer := q_a q |}.
Proof. intros H. unfold gradeQuestion. by rewrite H. Qed.

Lemma gradeQuestions_lookup ad (qs : list Question) (index n i : nat) :
  (gradeQuestions ad qs index n).2 !! i =
    (λ q, gradeQuestion ad q (index + i)) <$> qs !! i.
Proof.
  revert index n i. induction qs as [|q qs IH]; intros index n i; [done|].
  simpl. destruct (gradeQuestions ad qs (S index) _) as [m rs] eqn:E.
  destruct i as [|i]; simpl.
  - by rewrite Nat.add_0_r.
  - specialize (IH (S index) (if isCorrect (gradeQuestion ad q index)
                              then S n else n) i).
    rewrite E in IH. simpl in IH. rewrite IH.
    by rewrite Nat.add_succ_r.
Qed.

(** The counter returned with the results is the number of results
    marked correct, added to its initial value. *)
Lemma gradeQuestions_count ad (qs : list Question) (index n : nat) :
  (gradeQuestions ad qs index n).1 =
    (n + length (filter (λ r, isCorrect r = true)
                        (gradeQuestions ad qs index n).2))%nat.
Proof.
  revert index n. induction qs as [|q qs IH]; intros index n; simpl; [lia|].
  specialize (IH (S index) (if isCorrect (gradeQuestion ad q index)
                            then S n else n)).
  destruct (gradeQuestions ad qs (S index) _) as [m rs]. simpl in *.
  rewrite IH. destruct (isCorrect (gradeQuestion ad q index)) eqn:Ec.
  - rewrite filter_cons_True by done. simpl. lia.
  - rewrite filter_cons_False by (rewrite Ec; done). lia.
Qed.

Lemma getScore_results_lookup (e : Excerpt) ad (i : nat) :
  results (getScore (Some e) (Some ad)) !! i =
    (λ q, gradeQuestion ad q i) <$> e_questions e !! i.
Proof.
  unfold getScore.
  pose proof (gradeQuestions_lookup ad (e_questions e) 0 0 i) as H.
  destruct (gradeQuestions ad (e_questions e) 0 0) as [n rs]. exact H.
Qed.

Lemma gradesAs_check q ua : gradesAs q ua (checkAnswerCorrectness q ua).
Proof.
  split; [done|]. intros e ad i Hq Hua.
  rewrite getScore_results_lookup, Hq. simpl.
  by rewrite (gradeQuestion_present q ua).
Qed.

Lemma gradesAs_iff q ua (b : bool) :
  gradesAs q ua b ↔ checkAnswerCorrectness q ua = b.
Proof.
  split; [by intros [H _] | intros <-; apply gradesAs_check].
Qed.

Lemma check_fill_in_the_blank q ua :
  q_type q = lit "fill-in-the-blank" →
  checkAnswerCorrectness q ua =
    match ua, q_a q with
    | Arr u, Arr a =>
        if bool_decide (length u = length a) then every (trimmedIs a) u
        else false
    | _, _ => false
    end.
Proof. intros H. unfold checkAnswerCorrectness. by rewrite H. Qed.


Lemma check_unrecognized q ua :
  q_type q ≠ lit "multiple-choice" →
  q_type q ≠ lit "extraction" →
  q_type q ≠ lit "fill-in-the-blank" →
  checkAnswerCorrectness q ua = false.
Proof.
  intros H1 H2 H3. unfold checkAnswerCorrectness.
  by rewrite !bool_decide_eq_false_2.
Qed.
End Grading.

(** *** Sample content used to instantiate the statements *)

Definition sample_choice : Question :=
  {| q_type := lit "multiple-choice"; q_q := lit "Who is the narrator?";
     q_options := Some [lit "sensei"; lit "K"; lit "watashi"];
     q_a := Str (lit "watashi") |}.

Definition sample_extraction : Question :=
  {| q_type := lit "extraction"; q_q := lit "Quote the word.";
     q_options := None; q_a := Str (lit "kokoro") |}.


Definition sample_blank : Question :=
  {| q_type := lit "fill-in-the-blank"; q_q := lit "Fill in both blanks.";
     q_options := None; q_a := Arr [lit "a"; lit "b"] |}.


(** A question whose kind is none of the three. *)
Definition sample_essay : Question :=
  {| q_type := lit "essay"; q_q := lit "Discuss.";
     q_options := None; q_a := Str (lit "anything") |}.

Definition sample_excerpt : Excerpt :=
  {| e_id := 1; e_subtitle := lit "one"; e_text := lit "text"; e_notes := ∅;
     e_questions := [sample_choice; sample_extraction; sample_blank] |}.

Definition sample_work : Work :=
  {| w_id := lit "kokoro"; w_author := lit "Natsume"; w_title := lit "Kokoro";
     w_description := lit "novel"; w_excerpts := [sample_excerpt] |}.

(** An attempt that answers the first question only. *)
Definition sample_partial_attempt : AnswerData :=
  {| answers := {[ toString 0 := Str (lit "watashi") ]};
     studyTime := 12; timestamp := 1000 |}.

(** *** The claims on grading *)






(** C5. Whatever the kind of the question at position [i], when the answer
    mapping of the attempt has no entry for [i], the result of [getScore]
    at [i] is incorrect, reports the empty string as the submitted answer,
    and reports the accepted answer of the question. *)
Theorem missing_answer_incorrect (e : Excerpt) (ad : AnswerData) (i : nat)
    (q : Question) :
  e_questions e !! i = Some q →
  answers ad !! toString (Z.of_nat i) = None →
  results (getScore (Some e) (Some ad)) !! i =
    Some {| isCorrect := false; userAnswer := Str []; correctAnswer := q_a q |}.
Proof.
  intros Hq Hnone. rewrite getScore_results_lookup, Hq. simpl.
  by rewrite gradeQuestion_missing.
Qed.

Lemma missing_answer_incorrect_witness :
  (e_questions sample_excerpt !! 2%nat = Some sample_blank ∧
   answers sample_partial_attempt !! toString (Z.of_nat 2) = None) ∧
  results (getScore (Some sample_excerpt) (Some sample_partial_attempt)) !! 2%nat =
    Some {| isCorrect := false; userAnswer := Str [];
            correctAnswer := Arr [lit "a"; lit "b"] |}.
Proof.
  split; [split; reflexivity|].
  apply (missing_answer_incorrect sample_excerpt sample_partial_attempt 2
           sample_blank); reflexivity.
Defined.

(** C6. A question whose kind is none of multiple-choice, extraction and
    fill-in-the-blank is graded incorrect for every submitted answer: the
    check returns [false] and [getScore] reports an incorrect result. Both
    are total functions, so no submission makes them fail. *)
Theorem unrecognized_kind_incorrect (q : Question) (ua : UserAnswer) :
  q_type q ≠ lit "multiple-choice" →
  q_type q ≠ lit "extraction" →
  q_type q ≠ lit "fill-in-the-blank" →
  gradesAs q ua false.
Proof.
  intros H1 H2 H3. apply gradesAs_iff. by apply check_unrecognized.
Qed.

Lemma unrecognized_kind_incorrect_witness :
  (q_type sample_essay ≠ lit "multiple-choice" ∧
   q_type sample_essay ≠ lit "extraction" ∧
   q_type sample_essay ≠ lit "fill-in-the-blank") ∧
  gradesAs sample_essay (Str (lit "anything")) false.
Proof.
  assert (q_type sample_essay ≠ lit "multiple-choice") as H1
    by (vm_compute; discriminate).
  assert (q_type sample_essay ≠ lit "extraction") as H2
    by (vm_compute; discriminate).
  assert (q_type sample_essay ≠ lit "fill-in-the-blank") as H3
    by (vm_compute; discriminate).
  split; [done|].
  apply (unrecognized_kind_incorrect sample_essay (Str (lit "anything")) H1 H2 H3).
Defined.

(** ** Record store *)

(** One call of [saveAnswers]: the clock value, the answers and the study
    time it is given. *)
Record SaveCall : Type := {
  sc_now : Z;
  sc_answers : gmap jsstring UserAnswer;
  sc_studyTime : Z
}.

(** The attempt a call stores. *)
Definition attemptOf (c : SaveCall) : AnswerData :=
  {| answers := sc_answers c; studyTime := sc_studyTime c; timestamp := sc_now c |}.

(** The calls [calls], one after the other, for one work and excerpt. *)
Definition saveAll (workId : jsstring) (excerptId : Z) (calls : list SaveCall)
    (store : UserAnswers) : UserAnswers :=
  fold_left (λ prev c,
               saveAnswers (sc_now c) workId excerptId (sc_answers c)
                           (sc_studyTime c) prev)
            calls store.

(** The list of attempts read for a pair: empty when nothing is stored. *)
Definition attemptsOf (store : UserAnswers) (workId : jsstring) (excerptId : Z)
  : list AnswerData :=
  default [] (storedAttempts store workId excerptId).

Section Store.
Implicit Types (store prev : UserAnswers) (workId : jsstring) (excerptId : Z).

Lemma getAttemptCount_attemptsOf store workId excerptId :
  getAttemptCount store workId excerptId =
    length (attemptsOf store workId excerptId).
Proof.
  unfold getAttemptCount, attemptsOf.
  by destruct (storedAttempts store workId excerptId).
Qed.

Lemma storedAttempts_saveAnswers now workId excerptId ua t prev :
  storedAttempts (saveAnswers now workId excerptId ua t prev) workId excerptId =
    Some (attemptsOf prev workId excerptId ++
          [{| answers := ua; studyTime := t; timestamp := now |}]).
Proof.
  unfold storedAttempts, saveAnswers, attemptsOf, storedAttempts.
  rewrite lookup_insert_eq. simpl. rewrite lookup_insert_eq.
  by destruct (prev !! workId).
Qed.

Lemma attemptsOf_saveAnswers now workId excerptId ua t prev :
  attemptsOf (saveAnswers now workId excerptId ua t prev) workId excerptId =
    attemptsOf prev workId excerptId ++
    [{| answers := ua; studyTime := t; timestamp := now |}].
Proof.
  unfold attemptsOf at 1. by rewrite storedAttempts_saveAnswers.
Qed.

(** Saving for one work leaves the entries of every other work as they
    were. *)
Lemma saveAnswers_other_work now workId workId' excerptId ua t prev :
  workId ≠ workId' →
  saveAnswers now workId excerptId ua t prev !! workId' = prev !! workId'.
Proof. intros Hne. unfold saveAnswers. by rewrite lookup_insert_ne. Qed.

Lemma attemptsOf_saveAll workId excerptId (calls : list SaveCall) store :
  attemptsOf (saveAll workId excerptId calls store) workId excerptId =
    attemptsOf store workId excerptId ++ (attemptOf <$> calls).
Proof.
  revert store. induction calls as [|c calls IH]; intros store; simpl.
  - by rewrite app_nil_r.
  - unfold saveAll in *. simpl. rewrite IH, attemptsOf_saveAnswers.
    by rewrite <- app_assoc.
Qed.

Lemma attemptsOf_empty workId excerptId : attemptsOf ∅ workId excerptId = [].
Proof. unfold attemptsOf, storedAttempts. by rewrite lookup_empty. Qed.
End Store.

(** C4. Starting from a store with no attempt for (workId, excerptId),
    after [N] attempts are appended for that pair the attempt count is
    [N] and the stored list is the appended attempts in the order of the
    calls; and every single append, from any store, leaves the list as it
    was with the new attempt added at its end. *)
Theorem append_then_count (store : UserAnswers) (workId : jsstring)
    (excerptId : Z) (calls : list SaveCall) :
  attemptsOf store workId excerptId = [] →
  getAttemptCount (saveAll workId excerptId calls store) workId excerptId =
    length calls ∧
  attemptsOf (saveAll workId excerptId calls store) workId excerptId =
    attemptOf <$> calls ∧
  ∀ (prev : UserAnswers) (c : SaveCall),
    attemptsOf (saveAnswers (sc_now c) workId excerptId (sc_answers c)
                            (sc_studyTime c) prev) workId excerptId =
      attemptsOf prev workId excerptId ++ [attemptOf c].
Proof.
  intros Hempty. split; [|split].
  - rewrite getAttemptCount_attemptsOf, attemptsOf_saveAll, Hempty. simpl.
    by rewrite length_fmap.
  - by rewrite attemptsOf_saveAll, Hempty.
  - intros prev c. apply attemptsOf_saveAnswers.
Qed.

Definition sample_calls : list SaveCall :=
  [ {| sc_now := 1000; sc_answers := {[ toString 0 := Str (lit "watashi") ]};
       sc_studyTime := 12 |};
    {| sc_now := 2000; sc_answers := ∅; sc_studyTime := 1 |};
    {| sc_now := 3000; sc_answers := {[ toString 2 := Arr [lit "a"; lit "b"] ]};
       sc_studyTime := 40 |} ].

(** A store that already holds an attempt for another work. *)
Definition sample_store : UserAnswers :=
  saveAnswers 500 (lit "botchan") 1 ∅ 30 ∅.

Lemma append_then_count_witness :
  attemptsOf sample_store (lit "kokoro") 1 = [] ∧
  getAttemptCount (saveAll (lit "kokoro") 1 sample_calls sample_store)
                  (lit "kokoro") 1 = 3%nat.
Proof.
  assert (attemptsOf sample_store (lit "kokoro") 1 = []) as H
    by (vm_compute; reflexivity).
  split; [exact H|].
  exact (proj1 (append_then_count sample_store (lit "kokoro") 1 sample_calls H)).
Defined.

(** C9. After [clearAllAnswers] the store is the empty mapping whatever it
    held, and the attempt count is 0 for every work and excerpt. *)
Theorem clear_all_then_count (prev : UserAnswers) (workId : jsstring)
    (excerptId : Z) :
  clearAllAnswers prev = ∅ ∧
  getAttemptCount (clearAllAnswers prev) workId excerptId = 0%nat.
Proof.
  split; [done|].
  by rewrite getAttemptCount_attemptsOf, attemptsOf_empty.
Qed.

(** C8. When reading the saved text fails or finds nothing, and when the
    saved text does not parse, the initial store is the empty store: it
    has no entry for any work, and every attempt count is 0. *)
Theorem load_unparseable_is_empty
    (JSON_parse : jsstring → outcome UserAnswers) :
  initialAnswers JSON_parse Throws = ∅ ∧
  initialAnswers JSON_parse (Returns None) = ∅ ∧
  ∀ saved : jsstring,
    JSON_parse saved = Throws →
    initialAnswers JSON_parse (Returns (Some saved)) = ∅ ∧
    ∀ workId excerptId,
      getAttemptCount (initialAnswers JSON_parse (Returns (Some saved)))
                      workId excerptId = 0%nat.
Proof.
  split; [done|]. split; [done|]. intros saved Hparse.
  assert (initialAnswers JSON_parse (Returns (Some saved)) = ∅) as ->.
  { unfold initialAnswers. case_bool_decide; [done|]. by rewrite Hparse. }
  split; [done|]. intros workId excerptId.
  by rewrite getAttemptCount_attemptsOf, attemptsOf_empty.
Qed.

(** A parser that accepts the text of the empty object only. *)
Definition parse_empty_object (s : jsstring) : outcome UserAnswers :=
  if bool_decide (s = lit "{}") then Returns ∅ else Throws.

Lemma load_unparseable_is_empty_witness :
  parse_empty_object (lit "{oops") = Throws ∧
  initialAnswers parse_empty_object (Returns (Some (lit "{oops"))) = ∅.
Proof.
  split; [reflexivity|].
  exact (proj1 (proj2 (proj2 (load_unparseable_is_empty parse_empty_object))
                  (lit "{oops") eq_refl)).
Defined.

(** ** Quiz completion *)

Lemma roundSeconds_spec (ms : Z) :
  2 * (1000 * roundSeconds ms - ms) ≤ 1000 ∧
  -1000 < 2 * (1000 * roundSeconds ms - ms).
Proof.
  unfold roundSeconds.
  pose proof (Z.div_mod (ms + 500) 1000 ltac:(lia)).
  pose proof (Z.mod_pos_bound (ms + 500) 1000 ltac:(lia)). lia.
Qed.

Lemma finishStudyTime_positive (now startTime : Z) :
  1 ≤ finishStudyTime now startTime.
Proof. unfold finishStudyTime. case_bool_decide; lia. Qed.

(** C10. The attempt that completing a quiz appends for the work and the
    excerpt has a study time of at least 1: it is the rounded number of
    elapsed seconds when that is greater than 0, and 1 otherwise. *)
Theorem finish_quiz_study_time_positive (now savedAt startTime : Z)
    (work : Work) (excerpt : Excerpt) (shuffledQuestions : list ShuffledQuestion)
    (userAnswers : gmap jsstring UserAnswer) (prev : UserAnswers) :
  ∃ ad : AnswerData,
    attemptsOf (handleFinishQuiz now savedAt startTime work excerpt
                  shuffledQuestions userAnswers prev) (w_id work) (e_id excerpt) =
      attemptsOf prev (w_id work) (e_id excerpt) ++ [ad] ∧
    studyTime ad =
      (if bool_decide (0 < roundSeconds (now - startTime))
       then roundSeconds (now - startTime) else 1) ∧
    1 ≤ studyTime ad.
Proof.
  eexists. split; [apply attemptsOf_saveAnswers|]. simpl.
  split; [done | apply finishStudyTime_positive].
Qed.

(** Every stored attempt has a study time of at least 1. *)
Definition studyTimesPositive (store : UserAnswers) : Prop :=
  ∀ (workId key : jsstring) (excerpts : gmap jsstring (list AnswerData))
    (stored : list AnswerData) (ad : AnswerData),
    store !! workId = Some excerpts →
    excerpts !! key = Some stored →
    ad ∈ stored →
    1 ≤ studyTime ad.

(** Completing a quiz keeps that property of the store, and the cleared
    store has it. *)
Lemma handleFinishQuiz_studyTimesPositive (now savedAt startTime : Z)
    (work : Work) (excerpt : Excerpt) (shuffledQuestions : list ShuffledQuestion)
    (userAnswers : gmap jsstring UserAnswer) (prev : UserAnswers) :
  studyTimesPositive prev →
  studyTimesPositive (handleFinishQuiz now savedAt startTime work excerpt
                        shuffledQuestions userAnswers prev).
Proof.
  intros Hprev workId key excerpts stored ad Hw Hk Hin.
  unfold handleFinishQuiz, saveAnswers in Hw.
  destruct (decide (workId = w_id work)) as [->|Hne].
  - rewrite lookup_insert_eq in Hw. injection Hw as <-.
    destruct (decide (key = toString (e_id excerpt))) as [->|Hnk].
    + rewrite lookup_insert_eq in Hk. injection Hk as <-.
      apply elem_of_app in Hin as [Hin|Hin].
      * destruct (prev !! w_id work) as [cur|] eqn:Ecur; simpl in Hin.
        -- destruct (cur !! toString (e_id excerpt)) as [old|] eqn:Eold;
             simpl in Hin; [|by apply elem_of_nil in Hin].
           by apply (Hprev _ _ _ _ _ Ecur Eold).
        -- rewrite lookup_empty in Hin. by apply elem_of_nil in Hin.
      * apply list_elem_of_singleton in Hin as ->. simpl.
        apply finishStudyTime_positive.
    + rewrite lookup_insert_ne in Hk by done.
      destruct (prev !! w_id work) as [cur|] eqn:Ecur; simpl in Hk.
      * by apply (Hprev _ _ _ _ _ Ecur Hk).
      * by rewrite lookup_empty in Hk.
  - rewrite lookup_insert_ne in Hw by done.
    by apply (Hprev _ _ _ _ _ Hw Hk).
Qed.

Lemma clearAllAnswers_studyTimesPositive (prev : UserAnswers) :
  studyTimesPositive (clearAllAnswers prev).
Proof.
  intros workId key excerpts stored ad Hw. unfold clearAllAnswers in Hw.
  by rewrite lookup_empty in Hw.
Qed.

(** ** History categorization *)

(** The sum of [studyTime] over a list of attempts. *)
Definition totalStudyTime (l : list ScoredAttempt) : Z :=
  foldr (λ a s, studyTime (sa_attempt a) + s) 0 l.

#[global] Instance newerFirst_trans : Transitive newerFirst.
Proof. unfold newerFirst. intros a b c ??. lia. Qed.

#[global] Instance newerFirst_total : Total newerFirst.
Proof. unfold newerFirst. intros a b. lia. Qed.

Lemma StronglySorted_filter {A} (R : relation A) (P : A → Prop)
    `{!∀ x, Decision (P x)} (l : list A) :
  StronglySorted R l → StronglySorted R (filter P l).
Proof.
  induction 1 as [|x l Hl IH Hx]; [constructor|].
  destruct (decide (P x)).
  - rewrite filter_cons_True by done. constructor; [done|].
    rewrite Forall_forall in Hx |- *.
    intros y [_ Hy]%list_elem_of_filter. by apply Hx.
  - by rewrite filter_cons_False.
Qed.

Lemma allAttempts_sorted (works : list Work) (answers : UserAnswers) :
  StronglySorted newerFirst (allAttempts works answers).
Proof. unfold allAttempts. apply (StronglySorted_merge_sort _). Qed.

(** What the order of the boundaries needs of the time zone. The offsets
    of a zone are a day at most: this puts the boundary of seven days
    before the two others. *)
Definition zoneBounded (LocalTZA : Z → bool → Z) : Prop :=
  ∀ t b, Z.abs (LocalTZA t b) ≤ msPerDay.

(** For the boundary of yesterday to be before the start of today, two
    offsets at times two days apart or less differ by a day at most. A
    zone of fixed offset and a zone that moves its clocks by an hour twice
    a year are of this kind, and so is a zone that skips a day of the
    calendar. *)
Definition zoneRegular (LocalTZA : Z → bool → Z) : Prop :=
  zoneBounded LocalTZA ∧
  (∀ t u b c, Z.abs (t - u) ≤ 2 * msPerDay →
              LocalTZA t b - LocalTZA u c ≤ msPerDay).

Lemma TimeClip_Some (t b : Z) : TimeClip t = Some b → b = t.
Proof. unfold TimeClip. case_bool_decide; congruence. Qed.

(** Moving the day and keeping the time within the day moves a time value
    by whole days. *)
Lemma MakeDate_Day (t k : Z) :
  MakeDate (Day t - k) (TimeWithinDay t) = t - k * msPerDay.
Proof.
  unfold MakeDate, Day, TimeWithinDay, msPerDay.
  pose proof (Z.div_mod t 86400000 ltac:(lia)). lia.
Qed.

Section Categorization.
Variable LocalTZA : Z → bool → Z.
Variable now : Z.

(** A boundary is the instant of the local time of the start of today
    moved back by whole days. *)
Lemma daysBefore_Some (t0 k b : Z) :
  daysBefore LocalTZA (Some t0) k = Some b →
  b = UTC LocalTZA (LocalTime LocalTZA t0 - k * msPerDay).
Proof.
  unfold daysBefore. simpl. intros ->%TimeClip_Some. by rewrite MakeDate_Day.
Qed.

(** With offsets of a day at most, a boundary [k] days back, for [k] from
    2 on, is not after the start of today, and the boundary of seven days
    is not after the boundary of one day. *)
Lemma boundary_le_todayStart (t0 k b : Z) :
  zoneBounded LocalTZA → 2 ≤ k →
  daysBefore LocalTZA (Some t0) k = Some b → b ≤ t0.
Proof.
  intros Habs Hk ->%daysBefore_Some. unfold UTC, LocalTime.
  pose proof (Habs t0 true) as Hu.
  pose proof (Habs (t0 + LocalTZA t0 true - k * msPerDay) false) as Hl.
  unfold msPerDay in *. lia.
Qed.

Lemma boundaries_ordered (t0 b1 b7 : Z) :
  zoneBounded LocalTZA →
  daysBefore LocalTZA (Some t0) 1 = Some b1 →
  daysBefore LocalTZA (Some t0) 7 = Some b7 →
  b7 ≤ b1.
Proof.
  intros Habs ->%daysBefore_Some ->%daysBefore_Some.
  unfold UTC, LocalTime.
  pose proof (Habs (t0 + LocalTZA t0 true - 1 * msPerDay) false) as H1.
  pose proof (Habs (t0 + LocalTZA t0 true - 7 * msPerDay) false) as H7.
  unfold msPerDay in *. lia.
Qed.

(** In a regular zone the boundary of yesterday is not after the start of
    today. *)
Lemma yesterdayStart_le_todayStart (t0 b : Z) :
  zoneRegular LocalTZA →
  daysBefore LocalTZA (Some t0) 1 = Some b → b ≤ t0.
Proof.
  intros [Habs Hspread] ->%daysBefore_Some. unfold UTC, LocalTime.
  pose proof (Habs t0 true) as Hu.
  pose proof (Hspread t0 (t0 + LocalTZA t0 true - 1 * msPerDay) true false) as H.
  unfold msPerDay in *. lia.
Qed.

(** The attempts of [all] that the [if] chain sends to [key], in the
    order of [all]. *)
Definition bucketOf (all : list ScoredAttempt) (key : CategoryKey)
  : list ScoredAttempt :=
  filter (λ a, categoryKeyOf LocalTZA now a = key) all.

(** What the [forEach] has added to an entry once it has gone through
    [all]. *)
Definition filled (all : list ScoredAttempt) (entry : CategoryKey * Category)
  : CategoryKey * Category :=
  (entry.1,
   {| title := title entry.2;
      attempts := attempts entry.2 ++ bucketOf all entry.1;
      totalTime := totalTime entry.2 + totalStudyTime (bucketOf all entry.1) |}).

Lemma addAttempt_filled (a : ScoredAttempt) (all : list ScoredAttempt)
    (entry : CategoryKey * Category) :
  filled all
    (let '(key, data) := entry in
     if decide (key = categoryKeyOf LocalTZA now a)
     then (key, {| title := title data;
                   attempts := attempts data ++ [a];
                   totalTime := totalTime data + studyTime (sa_attempt a) |})
     else (key, data)) =
  filled (a :: all) entry.
Proof.
  destruct entry as [key data]. unfold filled, bucketOf.
  destruct (decide (key = categoryKeyOf LocalTZA now a)) as [->|Hne]; simpl.
  - rewrite filter_cons_True by done. simpl.
    f_equal. f_equal; [by rewrite <- app_assoc | lia].
  - rewrite filter_cons_False by done. done.
Qed.

Lemma categorize_filled (all : list ScoredAttempt)
    (categories : list (CategoryKey * Category)) :
  categorize LocalTZA now all categories = filled all <$> categories.
Proof.
  revert categories. induction all as [|a all IH]; intros categories.
  - simpl. rewrite <- (list_fmap_id categories) at 1.
    apply list_fmap_ext. intros _ [key [t l s]] _. unfold filled, bucketOf.
    simpl. by rewrite app_nil_r, Z.add_0_r.
  - unfold categorize in *. simpl. rewrite IH. unfold addAttempt.
    rewrite <- list_fmap_compose. apply list_fmap_ext.
    intros _ entry _. simpl. rewrite <- addAttempt_filled.
    by destruct entry.
Qed.

Lemma initialCategories_empty :
  Forall (λ entry, attempts entry.2 = [] ∧ totalTime entry.2 = 0)
         initialCategories.
Proof. repeat constructor. Qed.

Lemma initialCategories_key (key : CategoryKey) :
  ∃ data, (key, data) ∈ initialCategories.
Proof.
  destruct key; eexists; unfold initialCategories;
    repeat (first [apply list_elem_of_here | apply list_elem_of_further]).
Qed.

(** Every listed entry holds the attempts sent to its key, their total
    study time, and at least one attempt. *)
Lemma categorizedAttempts_listed (works : list Work) (answers : UserAnswers)
    (key : CategoryKey) (data : Category) :
  (key, data) ∈ categorizedAttempts LocalTZA works now answers →
  attempts data = bucketOf (allAttempts works answers) key ∧
  totalTime data = totalStudyTime (attempts data) ∧
  attempts data ≠ [].
Proof.
  unfold categorizedAttempts. rewrite list_elem_of_filter, categorize_filled.
  intros [Hlen (entry & Heq & Hin)%list_elem_of_fmap].
  pose proof initialCategories_empty as Hinit.
  rewrite Forall_forall in Hinit. destruct (Hinit _ Hin) as [Hnil Hzero].
  unfold filled in Heq. injection Heq as -> ->. simpl in *.
  rewrite Hnil, Hzero in *. simpl in *.
  split; [done|]. split; [lia|].
  intros Hbucket. rewrite Hbucket in Hlen. simpl in Hlen. lia.
Qed.

(** Every attempt of [allAttempts] is in the listed entry of its key. *)
Lemma categorizedAttempts_complete (works : list Work) (answers : UserAnswers)
    (attempt : ScoredAttempt) :
  attempt ∈ allAttempts works answers →
  ∃ data,
    (categoryKeyOf LocalTZA now attempt, data) ∈
      categorizedAttempts LocalTZA works now answers ∧
    attempt ∈ attempts data.
Proof.
  intros Hin.
  destruct (initialCategories_key (categoryKeyOf LocalTZA now attempt)) as [d0 Hd0].
  assert (attempt ∈ bucketOf (allAttempts works answers)
                             (categoryKeyOf LocalTZA now attempt)) as Hbucket.
  { unfold bucketOf. by apply list_elem_of_filter. }
  eexists. split.
  - unfold categorizedAttempts. rewrite categorize_filled.
    apply list_elem_of_filter. split; [|apply list_elem_of_fmap].
    2:{ exists (categoryKeyOf LocalTZA now attempt, d0). split; [|done].
        unfold filled. simpl. reflexivity. }
    simpl. rewrite length_app.
    destruct (bucketOf _ _); [by apply elem_of_nil in Hbucket | simpl; lia].
  - simpl. apply elem_of_app. by right.
Qed.

Lemma categoryKeyOf_not_thirtyDays (attempt : ScoredAttempt) :
  categoryKeyOf LocalTZA now attempt ≠ thirtyDays.
Proof. unfold categoryKeyOf. by repeat case_match. Qed.

(** With offsets of a day at most, a timestamp before the boundary of
    seven days fails the three tests that come before the fallback. *)
Lemma categoryKeyOf_before_sevenDaysAgo (attempt : ScoredAttempt) (b : Z) :
  zoneBounded LocalTZA →
  sevenDaysAgo LocalTZA now = Some b →
  timestamp (sa_attempt attempt) < b →
  categoryKeyOf LocalTZA now attempt = older.
Proof.
  intros Hzone H7 Hlt.
  unfold categoryKeyOf, yesterdayStart, sevenDaysAgo, thirtyDaysAgo, newDate
    in *.
  destruct (todayStart LocalTZA now) as [t0|] eqn:Ht0; [|done].
  rewrite H7.
  pose proof (boundary_le_todayStart t0 7 b Hzone ltac:(lia) H7) as Hb0.
  assert (∀ da db, dateGe da db = true →
                   ∃ x y, da = Some x ∧ db = Some y ∧ y ≤ x) as Hge.
  { intros [x|] [y|]; simpl; try done.
    intros ?%bool_decide_eq_true. eauto. }
  destruct (dateGe _ (Some t0)) eqn:E0.
  { apply Hge in E0 as (x & y & ->%TimeClip_Some & [= <-] & ?). lia. }
  destruct (dateGe _ (daysBefore LocalTZA (Some t0) 1)) eqn:E1.
  { apply Hge in E1 as (x & y & ->%TimeClip_Some & Hb1 & ?).
    pose proof (boundaries_ordered t0 y b Hzone Hb1 H7). lia. }
  destruct (dateGe _ (Some b)) eqn:E7.
  { apply Hge in E7 as (x & y & ->%TimeClip_Some & [= <-] & ?). lia. }
  by case_match.
Qed.
End Categorization.

(** *** A sample history *)

(** Noon of a day, in a zone nine hours ahead of UTC all year. *)
Definition sample_tza : Z := 9 * 3600000.
Definition sample_zone : Z → bool → Z := λ _ _, sample_tza.
Definition sample_now : Z := 20000 * msPerDay + 3 * 3600000.

Lemma sample_zone_regular : zoneRegular sample_zone.
Proof.
  unfold zoneRegular, zoneBounded, sample_zone, sample_tza, msPerDay.
  split; intros; lia.
Qed.

(** The zone of New York in 2024: five hours behind UTC, four from
    2024-03-10 07:00 UTC to 2024-11-03 06:00 UTC. A local time that the
    change in March skips, or that the change in November repeats, has the
    offset of before the change. *)
Definition newYork2024 : Z → bool → Z :=
  λ t isUTC,
    if isUTC then
      if bool_decide (t < 1710054000000) then -5 * 3600000
      else if bool_decide (t < 1730613600000) then -4 * 3600000
      else -5 * 3600000
    else
      if bool_decide (t < 1710054000000 - 4 * 3600000) then -5 * 3600000
      else if bool_decide (t < 1730613600000 - 4 * 3600000) then -4 * 3600000
      else -5 * 3600000.

Lemma newYork2024_regular : zoneRegular newYork2024.
Proof.
  unfold zoneRegular, zoneBounded, newYork2024, msPerDay.
  split; intros; repeat case_match; repeat case_bool_decide; lia.
Qed.

(** Attempts made now, 25 hours ago, 10 days ago and 40 days ago. *)
Definition sample_history_calls : list SaveCall :=
  [ {| sc_now := sample_now - 40 * msPerDay; sc_answers := ∅; sc_studyTime := 30 |};
    {| sc_now := sample_now - 10 * msPerDay;
       sc_answers := {[ toString 0 := Str (lit "watashi") ]}; sc_studyTime := 45 |};
    {| sc_now := sample_now - 25 * 3600000; sc_answers := ∅; sc_studyTime := 7 |};
    {| sc_now := sample_now; sc_answers := ∅; sc_studyTime := 9 |} ].

Definition sample_history : UserAnswers :=
  saveAll (lit "kokoro") 1 sample_history_calls ∅.

(** The attempt made 10 days ago, as [allAttempts] lists it. *)
Definition sample_ten_days_old : ScoredAttempt :=
  let attempt :=
    {| answers := {[ toString 0 := Str (lit "watashi") ]}; studyTime := 45;
       timestamp := sample_now - 10 * msPerDay |} in
  {| sa_workId := lit "kokoro"; sa_excerptId := 1;
     sa_score := getScore (Some sample_excerpt) (Some attempt);
     sa_attempt := attempt |}.

(** C2. In a time zone whose offsets are a day at most, an attempt of
    [allAttempts] whose timestamp is earlier than the start of the day
    seven days before today is assigned to [older] and is listed in the
    entry of [older]; and no entry of [thirtyDays] is ever listed, whatever
    the store, the content, the time zone and the value of now. *)
Theorem thirty_day_window_unreachable (LocalTZA : Z → bool → Z)
    (works : list Work) (now : Z) (answers : UserAnswers) :
  (∀ (attempt : ScoredAttempt) (b : Z),
     zoneBounded LocalTZA →
     attempt ∈ allAttempts works answers →
     sevenDaysAgo LocalTZA now = Some b →
     timestamp (sa_attempt attempt) < b →
     categoryKeyOf LocalTZA now attempt = older ∧
     ∃ data, (older, data) ∈ categorizedAttempts LocalTZA works now answers ∧
             attempt ∈ attempts data) ∧
  (∀ data, (thirtyDays, data) ∉ categorizedAttempts LocalTZA works now answers).
Proof.
  split.
  - intros attempt b Hzone Hin H7 Hlt.
    pose proof (categoryKeyOf_before_sevenDaysAgo LocalTZA now attempt b
                  Hzone H7 Hlt) as Hk.
    split; [done|].
    destruct (categorizedAttempts_complete LocalTZA now works answers attempt Hin)
      as (data & Hdata & Hatt).
    rewrite Hk in Hdata. by exists data.
  - intros data Hin.
    destruct (categorizedAttempts_listed LocalTZA now works answers _ _ Hin)
      as (Hb & _ & Hne).
    rewrite Hb in Hne. unfold bucketOf in Hne.
    destruct (filter _ _) as [|a l] eqn:E; [done|].
    assert (a ∈ a :: l) as Ha by apply list_elem_of_here.
    rewrite <- E in Ha. apply list_elem_of_filter in Ha as [Ha _].
    by apply categoryKeyOf_not_thirtyDays in Ha.
Qed.

(** A store with one attempt made in New York on 2024-10-28 at 00:30 local
    time, half an hour into the seventh day before 2024-11-04, and one made
    an hour earlier, on the eighth day before. *)
Definition newYork_history : UserAnswers :=
  saveAll (lit "kokoro") 1
    [ {| sc_now := 1730086200000; sc_answers := ∅; sc_studyTime := 20 |};
      {| sc_now := 1730089800000; sc_answers := ∅; sc_studyTime := 25 |} ]
    ∅.

(** The earlier of the two, as [allAttempts] lists it. *)
Definition newYork_eight_days_old : ScoredAttempt :=
  let attempt :=
    {| answers := ∅; studyTime := 20; timestamp := 1730086200000 |} in
  {| sa_workId := lit "kokoro"; sa_excerptId := 1;
     sa_score := getScore (Some sample_excerpt) (Some attempt);
     sa_attempt := attempt |}.

(** The instance is taken on 2024-11-04 at noon in New York, the day after
    the clocks went back: the seventh day before starts at 04:00 UTC, an
    hour earlier than seven times 24 hours before the start of today. *)
Lemma thirty_day_window_unreachable_witness :
  (zoneBounded newYork2024 ∧
   newYork_eight_days_old ∈ allAttempts [sample_work] newYork_history ∧
   todayStart newYork2024 1730739600000 = Some 1730696400000 ∧
   sevenDaysAgo newYork2024 1730739600000 = Some 1730088000000 ∧
   timestamp (sa_attempt newYork_eight_days_old) < 1730088000000) ∧
  categoryKeyOf newYork2024 1730739600000 newYork_eight_days_old = older.
Proof.
  assert (newYork_eight_days_old ∈ allAttempts [sample_work] newYork_history)
    as Hin.
  { vm_compute.
    repeat (first [apply list_elem_of_here | apply list_elem_of_further]). }
  assert (sevenDaysAgo newYork2024 1730739600000 = Some 1730088000000) as H7
    by (vm_compute; reflexivity).
  assert (timestamp (sa_attempt newYork_eight_days_old) < 1730088000000) as Hlt
    by reflexivity.
  split.
  - split; [exact (proj1 newYork2024_regular)|]. split; [exact Hin|].
    split; [vm_compute; reflexivity|]. split; [exact H7 | exact Hlt].
  - exact (proj1 (proj1 (thirty_day_window_unreachable newYork2024 [sample_work]
                           1730739600000 newYork_history)
                    newYork_eight_days_old _ (proj1 newYork2024_regular)
                    Hin H7 Hlt)).
Defined.

(** On that day the attempt of 00:30 is of the last seven days, though
    seven times 24 hours before the start of today it was not made yet. *)
Example newYork_history_listing :
  (λ entry, (entry.1, totalTime entry.2,
             (λ a, timestamp (sa_attempt a)) <$> attempts entry.2)) <$>
    categorizedAttempts newYork2024 [sample_work] 1730739600000
      newYork_history =
  [ (sevenDays, 25, [1730089800000]); (older, 20, [1730086200000]) ] ∧
  1730089800000 < 1730696400000 - 7 * msPerDay.
Proof. split; [vm_compute; reflexivity | reflexivity]. Qed.

(** C7. In the output of the categorization, the total time of every
    listed entry is the sum of the study times of its attempts, every
    listed entry has at least one attempt, and the attempts of every
    listed entry are in descending order of timestamp. *)
Theorem categorized_totals_sorted (LocalTZA : Z → bool → Z) (works : list Work) (now : Z)
    (answers : UserAnswers) (key : CategoryKey) (data : Category) :
  (key, data) ∈ categorizedAttempts LocalTZA works now answers →
  totalTime data = totalStudyTime (attempts data) ∧
  attempts data ≠ [] ∧
  StronglySorted newerFirst (attempts data).
Proof.
  intros Hin.
  destruct (categorizedAttempts_listed LocalTZA now works answers key data Hin)
    as (Hb & Ht & Hne).
  split; [done|]. split; [done|].
  rewrite Hb. apply StronglySorted_filter, allAttempts_sorted.
Qed.

Lemma categorized_totals_sorted_witness :
  ∃ data,
    (older, data) ∈
      categorizedAttempts sample_zone [sample_work] sample_now sample_history ∧
    totalTime data = totalStudyTime (attempts data) ∧
    attempts data ≠ [] ∧
    StronglySorted newerFirst (attempts data).
Proof.
  assert (∃ data, (older, data) ∈
            categorizedAttempts sample_zone [sample_work] sample_now
              sample_history) as [data Hin].
  { vm_compute. eexists.
    repeat (first [apply list_elem_of_here | apply list_elem_of_further]). }
  exists data. split; [exact Hin|].
  exact (categorized_totals_sorted sample_zone [sample_work] sample_now
           sample_history older data Hin).
Defined.

(** The sample history is listed as today, yesterday and older, with the
    attempts of 10 and of 40 days ago together in the last entry. *)
Example sample_history_listing :
  (λ entry, (entry.1, totalTime entry.2,
             (λ a, timestamp (sa_attempt a)) <$> attempts entry.2)) <$>
    categorizedAttempts sample_zone [sample_work] sample_now sample_history =
  [ (today, 9, [sample_now]);
    (yesterday, 7, [sample_now - 25 * 3600000]);
    (older, 75, [sample_now - 10 * msPerDay; sample_now - 40 * msPerDay]) ].
Proof. vm_compute. reflexivity. Qed.

(** An attempt that answers the three sample questions, the last one with
    a wrong second blank: two of three are correct. *)
Example sample_score :
  let attempt :=
    {| answers := {[ toString 0 := Str (lit "watashi");
                     toString 1 := Str (lit " kokoro ");
                     toString 2 := Arr [lit "a"; lit "c"] ]};
       studyTime := 60; timestamp := sample_now |} in
  let score := getScore (Some sample_excerpt) (Some attempt) in
  (correct score, total score, isCorrect <$> results score) =
  (2%nat, 3%nat, [true; true; false]).
Proof. vm_compute. reflexivity. Qed.

(** * Further functions of the application *)

(** ** Decimal keys *)

Section DecimalKeys.
Lemma lit_inj (s t : string) : lit s = lit t → s = t.
Proof.
  unfold lit. intros H.
  rewrite <- (string_of_list_ascii_of_string s),
          <- (string_of_list_ascii_of_string t).
  f_equal. revert H.
  generalize (list_ascii_of_string s) (list_ascii_of_string t).
  induction l as [|a l IH]; intros [|b l']; simpl; try done.
  intros [= Hab Hl]. f_equal; [|by apply IH].
  by rewrite <- (ascii_N_embedding a), <- (ascii_N_embedding b), Hab.
Qed.

Lemma to_int_proper (z : Z) : Z.to_int z ≠ Decimal.Pos Decimal.Nil ∧
                              Z.to_int z ≠ Decimal.Neg Decimal.Nil.
Proof.
  destruct z as [|p|p]; simpl; split; try done;
    intros [= H]; by apply DecimalPos.Unsigned.to_uint_nonnil in H.
Qed.

(** Two integers with the same numeral are equal, so the keys made with
    [toString] of different numbers are different keys. *)
Lemma toString_inj (m n : Z) : toString m = toString n → m = n.
Proof.
  unfold toString. intros H%lit_inj.
  destruct (to_int_proper m) as [Hm1 Hm2], (to_int_proper n) as [Hn1 Hn2].
  pose proof (NilZero.isi _ Hm1 Hm2) as Em.
  pose proof (NilZero.isi _ Hn1 Hn2) as En.
  rewrite H, En in Em. injection Em as Em.
  by rewrite <- (DecimalZ.of_to m), <- (DecimalZ.of_to n), Em.
Qed.

#[global] Instance toString_Inj : Inj (=) (=) toString.
Proof. intros m n. apply toString_inj. Qed.

Lemma toString_nonempty (n : Z) : toString n ≠ [].
Proof.
  unfold toString, lit. intros H. apply fmap_nil_inv in H.
  destruct (NilZero.string_of_int (Z.to_int n)) eqn:E; [|done].
  destruct (to_int_proper n) as [H1 H2].
  pose proof (NilZero.isi _ H1 H2) as Hi. by rewrite E in Hi.
Qed.

(** The code units of the decimal digits. *)
Definition isDigit (c : N) : bool := ((48 <=? c) && (c <=? 57))%N.

Lemma string_of_uint_digits (d : Decimal.uint) :
  Forall (λ c, isDigit c = true) (lit (NilEmpty.string_of_uint d)).
Proof. induction d; simpl; constructor; done. Qed.

(** The numeral of a number that is not negative has digits only. *)
Lemma toString_digits (n : Z) :
  0 ≤ n → Forall (λ c, isDigit c = true) (toString n).
Proof.
  intros Hn. unfold toString.
  destruct n as [|p|p]; [by repeat constructor| |lia].
  simpl. pose proof (DecimalPos.Unsigned.to_uint_nonnil p) as Hnil.
  unfold NilZero.string_of_uint.
  destruct (Pos.to_uint p) eqn:E; try done; apply string_of_uint_digits.
Qed.
End DecimalKeys.

(** ** The quiz session (QuizPage) *)

(** The values of [questionStates]. *)
Inductive QuestionState : Type :=
  | Unanswered | Correct | Incorrect.

#[global] Instance QuestionState_eq_dec : EqDecision QuestionState.
Proof. solve_decision. Defined.

(** The state of the page. *)
Record QuizState : Type := {
  qz_userAnswers : gmap jsstring UserAnswer;
  qz_shuffledQuestions : list ShuffledQuestion;
  qz_startTime : Z;
  qz_attemptNumber : nat;
  qz_questionStates : gmap jsstring QuestionState
}.

(** [excerpt.questions.map((q, index) => ({ ...q, originalIndex: index }))]. *)
Definition withOriginalIndex (questions : list Question) : list ShuffledQuestion :=
  imap (λ index q, {| sq_question := q; originalIndex := index |}) questions.

(** [shuffleArray]: a copy of the array sorted with a comparator that
    answers at random. The outcome is not determined; it is some
    arrangement of the same elements. *)
Definition shuffleArray {A} (array result : list A) : Prop :=
  result ≡ₚ array.

(** [{ ...q, options: options' }]. *)
Definition withOptions (q : ShuffledQuestion) (options' : list jsstring)
  : ShuffledQuestion :=
  {| sq_question :=
       {| q_type := q_type (sq_question q); q_q := q_q (sq_question q);
          q_options := Some options'; q_a := q_a (sq_question q) |};
     originalIndex := originalIndex q |}.

(** The callback that shuffles the options of a multiple-choice question
    and leaves every other question as it is. *)
Definition shuffleOptions (q result : ShuffledQuestion) : Prop :=
  if bool_decide (q_type (sq_question q) = lit "multiple-choice") then
    match q_options (sq_question q) with
    | Some options =>
        ∃ options', shuffleArray options options' ∧ result = withOptions q options'
    | None => result = q
    end
  else result = q.

(** [questionsWithShuffledOptions] of the effect that starts a quiz. *)
Definition questionsWithShuffledOptions (excerpt : Excerpt)
    (result : list ShuffledQuestion) : Prop :=
  ∃ shuffled,
    shuffleArray (withOriginalIndex (e_questions excerpt)) shuffled ∧
    Forall2 shuffleOptions shuffled result.

(** The answer a question starts with, and is reset to when it is graded
    incorrect: [Array(q.a.length).fill('')] for a fill-in-the-blank
    question whose accepted answer is an array, [''] otherwise. *)
Definition blankAnswer (q : Question) : UserAnswer :=
  if bool_decide (q_type q = lit "fill-in-the-blank") then
    match q_a q with
    | Arr a => Arr (replicate (length a) [])
    | Str _ => Str []
    end
  else Str [].

(** The [forEach] of the effect that fills [initialStates] and
    [initialAnswers]. *)
Fixpoint initialEntries (qs : list ShuffledQuestion) (i : nat)
    (initialStates : gmap jsstring QuestionState)
    (initialQuizAnswers : gmap jsstring UserAnswer)
  : gmap jsstring QuestionState * gmap jsstring UserAnswer :=
  match qs with
  | [] => (initialStates, initialQuizAnswers)
  | q :: qs' =>
      initialEntries qs' (S i)
        (<[toString (Z.of_nat i) := Unanswered]> initialStates)
        (<[toString (Z.of_nat i) := blankAnswer (sq_question q)]> initialQuizAnswers)
  end.

(** The state the effect sets for the shuffled questions it has drawn;
    [now] is [Date.now()]. *)
Definition startQuiz (questionsWithShuffledOptions : list ShuffledQuestion)
    (now : Z) : QuizState :=
  let '(initialStates, initialQuizAnswers) :=
    initialEntries questionsWithShuffledOptions 0 ∅ ∅ in
  {| qz_userAnswers := initialQuizAnswers;
     qz_shuffledQuestions := questionsWithShuffledOptions;
     qz_startTime := now;
     qz_attemptNumber := 0;
     qz_questionStates := initialStates |}.

(** The call [checkAnswerCorrectness(q, userAnswers[index])]: an index
    without an entry gives [undefined], which no case of the switch
    accepts. *)
Definition checkAnswerAt (question : Question) (userAnswer : option UserAnswer)
  : bool :=
  match userAnswer with
  | Some ua => checkAnswerCorrectness question ua
  | None => false
  end.

(** [a.trim() !== '']. *)
Definition nonBlank (s : jsstring) : bool := bool_decide (trim s ≠ []).

(** [areAllInputsFilled]. *)
Definition areAllInputsFilled (s : QuizState) : bool :=
  if bool_decide (length (qz_shuffledQuestions s) = 0%nat) then false
  else
    every (λ q index,
             if bool_decide (qz_questionStates s !! toString (Z.of_nat index)
                             = Some Correct)
             then true
             else
               let answer := qz_userAnswers s !! toString (Z.of_nat index) in
               if bool_decide (q_type (sq_question q) = lit "fill-in-the-blank")
               then match answer with
                    | Some (Arr l) => every (λ a _, nonBlank a) l
                    | _ => false
                    end
               else match answer with
                    | Some (Str a) => nonBlank a
                    | _ => false
                    end)
          (qz_shuffledQuestions s).

(** [isFinished]. *)
Definition isFinished (s : QuizState) : bool :=
  if bool_decide (qz_attemptNumber s = 0%nat) then false
  else
    let allCorrect :=
      every (λ _ i, bool_decide (qz_questionStates s !! toString (Z.of_nat i)
                                 = Some Correct))
            (qz_shuffledQuestions s) in
    allCorrect || bool_decide (3 ≤ qz_attemptNumber s)%nat.

(** The [forEach] of [handleGradeAnswers]; the answers graded are those of
    the state, [userAnswers]. *)
Fixpoint gradeEntries (userAnswers : gmap jsstring UserAnswer)
    (qs : list ShuffledQuestion) (index : nat)
    (newStates : gmap jsstring QuestionState)
    (newAnswers : gmap jsstring UserAnswer)
  : gmap jsstring QuestionState * gmap jsstring UserAnswer :=
  match qs with
  | [] => (newStates, newAnswers)
  | q :: qs' =>
      let key := toString (Z.of_nat index) in
      if bool_decide (newStates !! key ≠ Some Correct) then
        let isCorrect := checkAnswerAt (sq_question q) (userAnswers !! key) in
        gradeEntries userAnswers qs' (S index)
          (<[key := if isCorrect then Correct else Incorrect]> newStates)
          (if isCorrect then newAnswers
           else <[key := blankAnswer (sq_question q)]> newAnswers)
      else gradeEntries userAnswers qs' (S index) newStates newAnswers
  end.

(** [handleGradeAnswers]. *)
Definition handleGradeAnswers (s : QuizState) : QuizState :=
  let '(newStates, newAnswers) :=
    gradeEntries (qz_userAnswers s) (qz_shuffledQuestions s) 0
                 (qz_questionStates s) (qz_userAnswers s) in
  {| qz_userAnswers := newAnswers;
     qz_shuffledQuestions := qz_shuffledQuestions s;
     qz_startTime := qz_startTime s;
     qz_attemptNumber := S (qz_attemptNumber s);
     qz_questionStates := newStates |}.

(** The button under the questions: the finish button when the quiz is
    finished, otherwise the grading button, disabled until every input is
    filled. *)
Inductive QuizButton : Type :=
  | FinishButton
  | GradeButton (enabled : bool).

Definition quizButton (s : QuizState) : QuizButton :=
  if isFinished s then FinishButton else GradeButton (areAllInputsFilled s).

(** [handleFinishQuiz] on the state of the page. *)
Definition finishQuiz (now savedAt : Z) (work : Work) (excerpt : Excerpt)
    (s : QuizState) (prev : UserAnswers) : UserAnswers :=
  handleFinishQuiz now savedAt (qz_startTime s) work excerpt
    (qz_shuffledQuestions s) (qz_userAnswers s) prev.

(** ** The result page (ResultPage, SubmissionPage) *)

(** [works.find(w => w.id === workId)]; the route parameter may be absent. *)
Definition findWork (works : list Work) (workId : option jsstring) : option Work :=
  workId ≫= λ id, find (λ w, bool_decide (w_id w = id)) works.

(** [work?.excerpts.find(e => e.id.toString() === excerptId)]. *)
Definition findExcerpt (work : option Work) (excerptId : option jsstring)
  : option Excerpt :=
  work ≫= λ w, excerptId ≫= λ id,
    find (λ e, bool_decide (toString (e_id e) = id)) (w_excerpts w).

(** [answerData]: the last attempt stored under the route parameters. An
    absent or empty parameter is falsy. *)
Definition latestAttempt (answers : UserAnswers) (workId excerptId : option jsstring)
  : option AnswerData :=
  let answerAttempts :=
    match workId, excerptId with
    | Some w, Some e =>
        if bool_decide (w ≠ [] ∧ e ≠ []) then answers !! w ≫= λ es, es !! e
        else Some []
    | _, _ => Some []
    end in
  answerAttempts ≫= last.

(** What the result page shows: the score of the last attempt, or [None]
    for the message that no answer data was found. *)
Definition resultPage (works : list Work) (answers : UserAnswers)
    (workId excerptId : option jsstring) : option Score :=
  let work := findWork works workId in
  let excerpt := findExcerpt work excerptId in
  let answerData := latestAttempt answers workId excerptId in
  let score := getScore excerpt answerData in
  match work, excerpt, answerData with
  | Some _, Some _, Some _ => Some score
  | _, _, _ => None
  end.

(** ** Properties of the record store and of the score *)

(** X1. [saveAnswers] adds one to the attempt count of the work and excerpt
    it is called for and leaves the stored attempts and the count of every
    other work and excerpt as they were. *)
Theorem saveAnswers_counts (now : Z) (workId : jsstring) (excerptId : Z)
    (ua : gmap jsstring UserAnswer) (t : Z) (prev : UserAnswers)
    (workId' : jsstring) (excerptId' : Z) :
  if decide (workId' = workId ∧ excerptId' = excerptId)
  then getAttemptCount (saveAnswers now workId excerptId ua t prev)
                       workId' excerptId' =
       S (getAttemptCount prev workId' excerptId')
  else attemptsOf (saveAnswers now workId excerptId ua t prev)
                  workId' excerptId' =
       attemptsOf prev workId' excerptId' ∧
       getAttemptCount (saveAnswers now workId excerptId ua t prev)
                       workId' excerptId' =
       getAttemptCount prev workId' excerptId'.
Proof.
  destruct (decide _) as [[-> ->]|Hne].
  - rewrite !getAttemptCount_attemptsOf, attemptsOf_saveAnswers, length_app.
    simpl. lia.
  - assert (attemptsOf (saveAnswers now workId excerptId ua t prev)
                       workId' excerptId' =
            attemptsOf prev workId' excerptId') as Heq.
    { unfold attemptsOf, storedAttempts.
      destruct (decide (workId' = workId)) as [->|Hw].
      - assert (excerptId' ≠ excerptId) as He by naive_solver.
        unfold saveAnswers. rewrite lookup_insert_eq. simpl.
        rewrite lookup_insert_ne by (intros ?%toString_inj; done).
        destruct (prev !! workId); simpl; [done|]. by rewrite lookup_empty.
      - by rewrite saveAnswers_other_work. }
    by rewrite !getAttemptCount_attemptsOf, Heq.
Qed.

Lemma filter_length_all {A} (P : A → Prop) `{!∀ x, Decision (P x)} (l : list A) :
  length (filter P l) = length l ↔ Forall P l.
Proof.
  induction l as [|x l IH].
  - split; [constructor | done].
  - destruct (decide (P x)).
    + rewrite filter_cons_True by done. simpl. rewrite Forall_cons.
      split; [intros [= Hx]; by rewrite <- IH | intros [_ Hx]; f_equal; by apply IH].
    + rewrite filter_cons_False by done. simpl. rewrite Forall_cons.
      pose proof (length_filter P l). split; [lia | tauto].
Qed.

Lemma gradeQuestions_length (ad : AnswerData) (qs : list Question)
    (index n : nat) :
  length (gradeQuestions ad qs index n).2 = length qs.
Proof.
  revert index n. induction qs as [|q qs IH]; intros index n; simpl; [done|].
  specialize (IH (S index) (if isCorrect (gradeQuestion ad q index)
                            then S n else n)).
  destruct (gradeQuestions ad qs (S index) _). simpl in *. by rewrite IH.
Qed.

Lemma getScore_fields (e : Excerpt) (ad : AnswerData) :
  total (getScore (Some e) (Some ad)) = length (e_questions e) ∧
  results (getScore (Some e) (Some ad)) =
    (gradeQuestions ad (e_questions e) 0 0).2 ∧
  correct (getScore (Some e) (Some ad)) =
    (gradeQuestions ad (e_questions e) 0 0).1.
Proof. unfold getScore. by destruct (gradeQuestions _ _ _ _). Qed.

Lemma getScore_correct_count (e : Excerpt) (ad : AnswerData) :
  correct (getScore (Some e) (Some ad)) =
    length (filter (λ r, isCorrect r = true)
                   (results (getScore (Some e) (Some ad)))) ∧
  length (results (getScore (Some e) (Some ad))) = length (e_questions e).
Proof.
  destruct (getScore_fields e ad) as (_ & -> & ->).
  by rewrite gradeQuestions_count, gradeQuestions_length.
Qed.

(** A score is perfect when every question has a stored answer that
    passes the check. *)
Lemma all_pass_perfect (e : Excerpt) (ad : AnswerData) :
  (∀ (i : nat) (q : Question),
     e_questions e !! i = Some q →
     ∃ ua, answers ad !! toString (Z.of_nat i) = Some ua ∧
           checkAnswerCorrectness q ua = true) →
  correct (getScore (Some e) (Some ad)) = length (e_questions e).
Proof.
  intros H. destruct (getScore_correct_count e ad) as [-> <-].
  apply filter_length_all, Forall_lookup. intros i r Hr.
  rewrite getScore_results_lookup in Hr.
  destruct (e_questions e !! i) as [q|] eqn:Hq; [|done].
  injection Hr as <-. destruct (H i q Hq) as (ua & Hua & Hck).
  by rewrite (gradeQuestion_present q ua).
Qed.

(** X2. The score of an attempt has one result for each question of the
    excerpt, its total is the number of questions, and its count of correct
    answers is the number of results marked correct, which is at most the
    total. *)
Theorem getScore_shape (e : Excerpt) (ad : AnswerData) :
  let score := getScore (Some e) (Some ad) in
  total score = length (e_questions e) ∧
  length (results score) = length (e_questions e) ∧
  correct score = length (filter (λ r, isCorrect r = true) (results score)) ∧
  (correct score ≤ total score)%nat.
Proof.
  cbv zeta. destruct (getScore_fields e ad) as (Ht & _).
  destruct (getScore_correct_count e ad) as [Hc Hl].
  split; [done|]. split; [done|]. split; [done|].
  rewrite Hc, Ht, <- Hl. apply length_filter.
Qed.

(** X3. The score is perfect (as many correct answers as questions, the
    case in which the result page congratulates) exactly when every
    question of the excerpt has a stored answer that passes the check. *)
Theorem getScore_perfect_iff (e : Excerpt) (ad : AnswerData) :
  correct (getScore (Some e) (Some ad)) = total (getScore (Some e) (Some ad)) ↔
  ∀ (i : nat) (q : Question),
    e_questions e !! i = Some q →
    ∃ ua, answers ad !! toString (Z.of_nat i) = Some ua ∧
          checkAnswerCorrectness q ua = true.
Proof.
  destruct (getScore_fields e ad) as (Ht & _). rewrite Ht. split.
  - destruct (getScore_correct_count e ad) as [-> <-].
    rewrite filter_length_all, Forall_lookup.
    intros H i q Hq.
    pose proof (getScore_results_lookup e ad i) as Hr. rewrite Hq in Hr.
    simpl in Hr. specialize (H i _ Hr).
    destruct (answers ad !! toString (Z.of_nat i)) as [ua|] eqn:Hua.
    + exists ua. split; [done|].
      by rewrite (gradeQuestion_present q ua) in H.
    + by rewrite gradeQuestion_missing in H.
  - apply all_pass_perfect.
Qed.

(** ** Properties of the quiz session *)

(** The key of a display index. *)
Abbreviation keyOf i := (toString (Z.of_nat i)).

Section QuizSession.
Implicit Types (s : QuizState) (q : ShuffledQuestion) (k : jsstring).
Implicit Types (states : gmap jsstring QuestionState).
Implicit Types (ua newAnswers : gmap jsstring UserAnswer).

Lemma keyOf_inj (i j : nat) : keyOf i = keyOf j → i = j.
Proof. intros H%toString_inj. lia. Qed.

(** A key is the key of a display index below [n], or of none. *)
Lemma key_below_dec k (i0 n : nat) :
  (∃ j, (j < n)%nat ∧ k = keyOf (i0 + j)) ∨
  (∀ j, (j < n)%nat → k ≠ keyOf (i0 + j)).
Proof.
  induction n as [|n [(j & Hj & ->)|IH]].
  - right. lia.
  - left. exists j. split; [lia | done].
  - destruct (decide (k = keyOf (i0 + n))) as [->|Hne].
    + left. exists n. split; [lia | done].
    + right. intros j Hj. destruct (decide (j = n)) as [->|]; [done|].
      apply IH. lia.
Qed.

(** The loop of [handleGradeAnswers] leaves the entries of the keys it
    does not visit as they were. *)
Lemma gradeEntries_other ua (qs : list ShuffledQuestion) (i0 : nat)
    states newAnswers k :
  (∀ j, (j < length qs)%nat → k ≠ keyOf (i0 + j)) →
  (gradeEntries ua qs i0 states newAnswers).1 !! k = states !! k ∧
  (gradeEntries ua qs i0 states newAnswers).2 !! k = newAnswers !! k.
Proof.
  revert i0 states newAnswers.
  induction qs as [|q qs IH]; intros i0 states newAnswers Hk; [done|].
  assert (k ≠ keyOf i0) as Hhead.
  { specialize (Hk 0%nat). rewrite Nat.add_0_r in Hk. apply Hk. simpl. lia. }
  assert (∀ j, (j < length qs)%nat → k ≠ keyOf (S i0 + j)) as Htail.
  { intros j Hj. replace (S i0 + j)%nat with (i0 + S j)%nat by lia.
    apply Hk. simpl. lia. }
  pose proof (λ st na, IH (S i0) st na Htail) as IH'.
  simpl. case_bool_decide.
  - rewrite (proj1 (IH' _ _)), (proj2 (IH' _ _)).
    rewrite lookup_insert_ne by done. split; [done|].
    destruct (checkAnswerAt _ _); [done|]. by rewrite lookup_insert_ne.
  - by apply IH.
Qed.

Lemma gradeEntries_cons ua q (qs : list ShuffledQuestion) (i0 : nat)
    states newAnswers :
  gradeEntries ua (q :: qs) i0 states newAnswers =
    if bool_decide (states !! keyOf i0 ≠ Some Correct) then
      gradeEntries ua qs (S i0)
        (<[keyOf i0 := if checkAnswerAt (sq_question q) (ua !! keyOf i0)
                       then Correct else Incorrect]> states)
        (if checkAnswerAt (sq_question q) (ua !! keyOf i0) then newAnswers
         else <[keyOf i0 := blankAnswer (sq_question q)]> newAnswers)
    else gradeEntries ua qs (S i0) states newAnswers.
Proof. done. Qed.

(** What the loop leaves at the key of a question it visits. *)
Lemma gradeEntries_at ua (qs : list ShuffledQuestion) (i0 : nat)
    states newAnswers (j : nat) q :
  qs !! j = Some q →
  let k := keyOf (i0 + j) in
  let res := gradeEntries ua qs i0 states newAnswers in
  if bool_decide (states !! k ≠ Some Correct) then
    if checkAnswerAt (sq_question q) (ua !! k)
    then res.1 !! k = Some Correct ∧ res.2 !! k = newAnswers !! k
    else res.1 !! k = Some Incorrect ∧
         res.2 !! k = Some (blankAnswer (sq_question q))
  else res.1 !! k = Some Correct ∧ res.2 !! k = newAnswers !! k.
Proof.
  revert i0 states newAnswers j.
  induction qs as [|q0 qs IH]; intros i0 states newAnswers j Hq; [done|].
  destruct j as [|j]; simpl in Hq.
  - injection Hq as ->. rewrite Nat.add_0_r. simpl.
    assert (∀ j, (j < length qs)%nat → keyOf i0 ≠ keyOf (S i0 + j)) as Htail.
    { intros j _ ?%keyOf_inj. lia. }
    case_bool_decide as Hst.
    + destruct (gradeEntries_other ua qs (S i0)
                  (<[keyOf i0 := if checkAnswerAt (sq_question q) (ua !! keyOf i0)
                                 then Correct else Incorrect]> states)
                  (if checkAnswerAt (sq_question q) (ua !! keyOf i0)
                   then newAnswers
                   else <[keyOf i0 := blankAnswer (sq_question q)]> newAnswers)
                  (keyOf i0) Htail) as [-> ->].
      rewrite lookup_insert_eq.
      destruct (checkAnswerAt _ _); [done|]. by rewrite lookup_insert_eq.
    + destruct (gradeEntries_other ua qs (S i0) states newAnswers
                  (keyOf i0) Htail) as [-> ->].
      split; [|done]. destruct (decide (states !! keyOf i0 = Some Correct)); done.
  - replace (i0 + S j)%nat with (S i0 + j)%nat by lia.
    assert (keyOf (S i0 + j) ≠ keyOf i0) as Hne by (intros ?%keyOf_inj; lia).
    cbn zeta. rewrite gradeEntries_cons.
    destruct (bool_decide (states !! keyOf i0 ≠ Some Correct)) eqn:Hst0.
    + specialize (IH (S i0)
                    (<[keyOf i0 := if checkAnswerAt (sq_question q0) (ua !! keyOf i0)
                                   then Correct else Incorrect]> states)
                    (if checkAnswerAt (sq_question q0) (ua !! keyOf i0)
                     then newAnswers
                     else <[keyOf i0 := blankAnswer (sq_question q0)]> newAnswers)
                    j Hq).
      simpl in IH. rewrite lookup_insert_ne in IH by done.
      destruct (checkAnswerAt (sq_question q0) (ua !! keyOf i0));
        [exact IH|]. by rewrite lookup_insert_ne in IH.
    + exact (IH (S i0) states newAnswers j Hq).
Qed.

(** The same for the loop that starts a quiz. *)
Lemma initialEntries_other (qs : list ShuffledQuestion) (i0 : nat)
    states newAnswers k :
  (∀ j, (j < length qs)%nat → k ≠ keyOf (i0 + j)) →
  (initialEntries qs i0 states newAnswers).1 !! k = states !! k ∧
  (initialEntries qs i0 states newAnswers).2 !! k = newAnswers !! k.
Proof.
  revert i0 states newAnswers.
  induction qs as [|q qs IH]; intros i0 states newAnswers Hk; [done|].
  assert (k ≠ keyOf i0) as Hhead.
  { specialize (Hk 0%nat). rewrite Nat.add_0_r in Hk. apply Hk. simpl. lia. }
  assert (∀ j, (j < length qs)%nat → k ≠ keyOf (S i0 + j)) as Htail.
  { intros j Hj. replace (S i0 + j)%nat with (i0 + S j)%nat by lia.
    apply Hk. simpl. lia. }
  pose proof (λ st na, IH (S i0) st na Htail) as IH'.
  simpl. rewrite (proj1 (IH' _ _)), (proj2 (IH' _ _)).
  by rewrite !lookup_insert_ne.
Qed.

Lemma initialEntries_at (qs : list ShuffledQuestion) (i0 : nat)
    states newAnswers (j : nat) q :
  qs !! j = Some q →
  (initialEntries qs i0 states newAnswers).1 !! keyOf (i0 + j) = Some Unanswered ∧
  (initialEntries qs i0 states newAnswers).2 !! keyOf (i0 + j) =
    Some (blankAnswer (sq_question q)).
Proof.
  revert i0 states newAnswers j.
  induction qs as [|q0 qs IH]; intros i0 states newAnswers j Hq; [done|].
  destruct j as [|j]; simpl in Hq.
  - injection Hq as ->. rewrite Nat.add_0_r. simpl.
    destruct (initialEntries_other qs (S i0)
                (<[keyOf i0 := Unanswered]> states)
                (<[keyOf i0 := blankAnswer (sq_question q)]> newAnswers)
                (keyOf i0)) as [-> ->].
    { intros j _ ?%keyOf_inj. lia. }
    by rewrite !lookup_insert_eq.
  - replace (i0 + S j)%nat with (S i0 + j)%nat by lia.
    exact (IH (S i0) _ _ j Hq).
Qed.

Lemma handleGradeAnswers_fields s :
  qz_questionStates (handleGradeAnswers s) =
    (gradeEntries (qz_userAnswers s) (qz_shuffledQuestions s) 0
                  (qz_questionStates s) (qz_userAnswers s)).1 ∧
  qz_userAnswers (handleGradeAnswers s) =
    (gradeEntries (qz_userAnswers s) (qz_shuffledQuestions s) 0
                  (qz_questionStates s) (qz_userAnswers s)).2 ∧
  qz_shuffledQuestions (handleGradeAnswers s) = qz_shuffledQuestions s ∧
  qz_attemptNumber (handleGradeAnswers s) = S (qz_attemptNumber s) ∧
  qz_startTime (handleGradeAnswers s) = qz_startTime s.
Proof. unfold handleGradeAnswers. by destruct (gradeEntries _ _ _ _ _). Qed.

Lemma startQuiz_fields (qs : list ShuffledQuestion) (now : Z) :
  qz_questionStates (startQuiz qs now) = (initialEntries qs 0 ∅ ∅).1 ∧
  qz_userAnswers (startQuiz qs now) = (initialEntries qs 0 ∅ ∅).2 ∧
  qz_shuffledQuestions (startQuiz qs now) = qs ∧
  qz_attemptNumber (startQuiz qs now) = 0%nat ∧
  qz_startTime (startQuiz qs now) = now.
Proof. unfold startQuiz. by destruct (initialEntries _ _ _ _). Qed.

(** What a grading leaves for the question at display index [i]. *)
Lemma handleGradeAnswers_at s (i : nat) q :
  qz_shuffledQuestions s !! i = Some q →
  let s' := handleGradeAnswers s in
  if bool_decide (qz_questionStates s !! keyOf i ≠ Some Correct) then
    if checkAnswerAt (sq_question q) (qz_userAnswers s !! keyOf i)
    then qz_questionStates s' !! keyOf i = Some Correct ∧
         qz_userAnswers s' !! keyOf i = qz_userAnswers s !! keyOf i
    else qz_questionStates s' !! keyOf i = Some Incorrect ∧
         qz_userAnswers s' !! keyOf i = Some (blankAnswer (sq_question q))
  else qz_questionStates s' !! keyOf i = Some Correct ∧
       qz_userAnswers s' !! keyOf i = qz_userAnswers s !! keyOf i.
Proof.
  intros Hq. simpl.
  destruct (handleGradeAnswers_fields s) as (-> & -> & _).
  exact (gradeEntries_at (qz_userAnswers s) (qz_shuffledQuestions s) 0
           (qz_questionStates s) (qz_userAnswers s) i q Hq).
Qed.
End QuizSession.

(** *** A sample session *)

(** The sample questions in the order blanks, choice, extraction. *)
Definition sample_shuffled : list ShuffledQuestion :=
  [ {| sq_question := sample_blank; originalIndex := 2 |};
    {| sq_question := sample_choice; originalIndex := 0 |};
    {| sq_question := sample_extraction; originalIndex := 1 |} ].

(** The session once the learner has typed a wrong second blank, chosen
    the right option and typed a wrong quotation. *)
Definition sample_answered : QuizState :=
  {| qz_userAnswers :=
       {[ keyOf 0 := Arr [lit "a"; lit "x"];
          keyOf 1 := Str (lit "watashi");
          keyOf 2 := Str (lit "kokor") ]};
     qz_shuffledQuestions := sample_shuffled;
     qz_startTime := sample_now - 90500;
     qz_attemptNumber := 0;
     qz_questionStates :=
       {[ keyOf 0 := Unanswered; keyOf 1 := Unanswered; keyOf 2 := Unanswered ]} |}.

Definition sample_graded : QuizState := handleGradeAnswers sample_answered.

(** A question for which the empty input is complete: a fill-in-the-blank
    question without a blank. *)
Definition noBlanks (q : Question) : Prop :=
  q_type q = lit "fill-in-the-blank" ∧ q_a q = Arr [].

(** Every question marked correct has an answer that passes the check. *)
Definition lockedAnswersPass (s : QuizState) : Prop :=
  ∀ (i : nat) (q : ShuffledQuestion),
    qz_shuffledQuestions s !! i = Some q →
    qz_questionStates s !! keyOf i = Some Correct →
    checkAnswerAt (sq_question q) (qz_userAnswers s !! keyOf i) = true.

Lemma every_false {A} (p : A → nat → bool) (l : list A) (i : nat) (x : A) :
  l !! i = Some x → p x i = false → every p l = false.
Proof.
  intros Hx Hp. destruct (every p l) eqn:E; [|done].
  unfold every in E. rewrite every_from_spec in E.
  specialize (E i x Hx). simpl in E. congruence.
Qed.

Lemma blankAnswer_not_filled (q : Question) :
  ¬ noBlanks q →
  (if bool_decide (q_type q = lit "fill-in-the-blank")
   then match Some (blankAnswer q) with
        | Some (Arr l) => every (λ a _, nonBlank a) l
        | _ => false
        end
   else match Some (blankAnswer q) with
        | Some (Str a) => nonBlank a
        | _ => false
        end) = false.
Proof.
  intros Hq. unfold blankAnswer, noBlanks in *.
  case_bool_decide as Hty; [|done].
  destruct (q_a q) as [a|a]; [done|].
  destruct a as [|x a]; [naive_solver|]. done.
Qed.

(** X4. A question that is marked correct stays marked correct when the
    answers are graded again, and its answer is kept as it is. *)
Theorem handleGradeAnswers_locked (s : QuizState) (k : jsstring) :
  qz_questionStates s !! k = Some Correct →
  qz_questionStates (handleGradeAnswers s) !! k = Some Correct ∧
  qz_userAnswers (handleGradeAnswers s) !! k = qz_userAnswers s !! k.
Proof.
  intros Hk.
  destruct (key_below_dec k 0 (length (qz_shuffledQuestions s)))
    as [(j & Hj & ->)|Hother].
  - apply lookup_lt_is_Some in Hj as [q Hq].
    pose proof (handleGradeAnswers_at s j q Hq) as H. simpl in *.
    rewrite bool_decide_eq_false_2 in H by (intros ?; done). exact H.
  - destruct (handleGradeAnswers_fields s) as (-> & -> & _).
    rewrite <- Hk. by apply gradeEntries_other.
Qed.

Lemma handleGradeAnswers_locked_witness :
  qz_questionStates sample_graded !! keyOf 1 = Some Correct ∧
  qz_questionStates (handleGradeAnswers sample_graded) !! keyOf 1 = Some Correct ∧
  qz_userAnswers (handleGradeAnswers sample_graded) !! keyOf 1 =
    qz_userAnswers sample_graded !! keyOf 1.
Proof.
  assert (qz_questionStates sample_graded !! keyOf 1 = Some Correct) as H
    by (vm_compute; reflexivity).
  split; [exact H|].
  exact (handleGradeAnswers_locked sample_graded (keyOf 1) H).
Defined.

(** X5. Grading marks a question that is not yet marked correct by the
    check of its current answer: correct, with the answer kept, when the
    check passes; incorrect, with the answer reset to the blank answer of
    the question, when it fails. *)
Theorem handleGradeAnswers_verdict (s : QuizState) (i : nat)
    (q : ShuffledQuestion) :
  qz_shuffledQuestions s !! i = Some q →
  qz_questionStates s !! keyOf i ≠ Some Correct →
  if checkAnswerAt (sq_question q) (qz_userAnswers s !! keyOf i)
  then qz_questionStates (handleGradeAnswers s) !! keyOf i = Some Correct ∧
       qz_userAnswers (handleGradeAnswers s) !! keyOf i =
         qz_userAnswers s !! keyOf i
  else qz_questionStates (handleGradeAnswers s) !! keyOf i = Some Incorrect ∧
       qz_userAnswers (handleGradeAnswers s) !! keyOf i =
         Some (blankAnswer (sq_question q)).
Proof.
  intros Hq Hst. pose proof (handleGradeAnswers_at s i q Hq) as H.
  simpl in H. by rewrite bool_decide_eq_true_2 in H.
Qed.

Lemma handleGradeAnswers_verdict_witness :
  (qz_shuffledQuestions sample_answered !! 0%nat =
     Some {| sq_question := sample_blank; originalIndex := 2 |} ∧
   qz_questionStates sample_answered !! keyOf 0 ≠ Some Correct) ∧
  qz_questionStates sample_graded !! keyOf 0 = Some Incorrect ∧
  qz_userAnswers sample_graded !! keyOf 0 = Some (Arr [[]; []]).
Proof.
  assert (qz_questionStates sample_answered !! keyOf 0 ≠ Some Correct) as H
    by (vm_compute; discriminate).
  split; [split; [reflexivity | exact H]|].
  exact (handleGradeAnswers_verdict sample_answered 0 _ eq_refl H).
Defined.

(** At the start of a quiz no question is marked correct, and grading
    keeps the property that every question marked correct has an answer
    that passes the check. *)
Lemma lockedAnswersPass_kept :
  (∀ (qs : list ShuffledQuestion) (now : Z), lockedAnswersPass (startQuiz qs now)) ∧
  (∀ s : QuizState, lockedAnswersPass s → lockedAnswersPass (handleGradeAnswers s)).
Proof.
  split.
  - intros qs now i q Hq Hst.
    destruct (startQuiz_fields qs now) as (Hs & _ & Hqs & _).
    rewrite Hqs in Hq. rewrite Hs in Hst.
    destruct (initialEntries_at qs 0 ∅ ∅ i q Hq) as [Hun _].
    simpl in Hun. congruence.
  - intros s Hinv i q Hq Hst.
    destruct (handleGradeAnswers_fields s) as (_ & _ & Hqs & _).
    rewrite Hqs in Hq.
    pose proof (handleGradeAnswers_at s i q Hq) as H. simpl in H.
    case_bool_decide as Hbefore.
    + destruct (checkAnswerAt (sq_question q) (qz_userAnswers s !! keyOf i))
        eqn:Hck; destruct H as [H1 H2]; [by rewrite H2 | congruence].
    + destruct H as [_ H2]. rewrite H2. apply (Hinv i q Hq).
      by destruct (decide (qz_questionStates s !! keyOf i = Some Correct)).
Qed.


(** X6. A grading ends the quiz exactly when it is at least the third one
    or it leaves every question marked correct, that is, when every
    question was already marked correct or has an answer that passes the
    check. *)
Theorem isFinished_after_grading (s : QuizState) :
  isFinished (handleGradeAnswers s) = true ↔
  (2 ≤ qz_attemptNumber s)%nat ∨
  ∀ (i : nat) (q : ShuffledQuestion),
    qz_shuffledQuestions s !! i = Some q →
    qz_questionStates s !! keyOf i = Some Correct ∨
    checkAnswerAt (sq_question q) (qz_userAnswers s !! keyOf i) = true.
Proof.
  unfold isFinished.
  destruct (handleGradeAnswers_fields s) as (_ & _ & Hqs & Hn & _).
  rewrite Hn, Hqs. rewrite bool_decide_eq_false_2 by lia.
  rewrite orb_true_iff, bool_decide_eq_true. unfold every.
  rewrite every_from_spec.
  assert (∀ i q, qz_shuffledQuestions s !! i = Some q →
            (qz_questionStates (handleGradeAnswers s) !! keyOf i = Some Correct ↔
             qz_questionStates s !! keyOf i = Some Correct ∨
             checkAnswerAt (sq_question q) (qz_userAnswers s !! keyOf i) = true))
    as Hiff.
  { intros i q Hq. pose proof (handleGradeAnswers_at s i q Hq) as H.
    simpl in H. case_bool_decide as Hst.
    - destruct (checkAnswerAt _ _) eqn:Hck.
      + rewrite (proj1 H). intuition congruence.
      + rewrite (proj1 H). intuition congruence.
    - rewrite (proj1 H).
      destruct (decide (qz_questionStates s !! keyOf i = Some Correct));
        intuition congruence. }
  split.
  - intros [Hall|Hthree]; [right | left; lia].
    intros i q Hq. apply (Hiff i q Hq).
    specialize (Hall i q Hq). simpl in Hall.
    by apply bool_decide_eq_true in Hall.
  - intros [Hthree|Hall]; [right; lia | left].
    intros i q Hq. simpl. apply bool_decide_eq_true.
    apply (Hiff i q Hq). by apply Hall.
Qed.

(** X7. When a grading marks a question incorrect, the inputs are not all
    filled afterwards, so the grading button is disabled until the learner
    answers again (unless the quiz is finished); the only exception is a
    fill-in-the-blank question without a blank. *)
Theorem failed_question_blocks_regrading (s : QuizState) (i : nat)
    (q : ShuffledQuestion) :
  qz_shuffledQuestions s !! i = Some q →
  qz_questionStates s !! keyOf i ≠ Some Correct →
  checkAnswerAt (sq_question q) (qz_userAnswers s !! keyOf i) = false →
  ¬ noBlanks (sq_question q) →
  areAllInputsFilled (handleGradeAnswers s) = false ∧
  (quizButton (handleGradeAnswers s) = FinishButton ∨
   quizButton (handleGradeAnswers s) = GradeButton false).
Proof.
  intros Hq Hst Hck Hnb.
  assert (areAllInputsFilled (handleGradeAnswers s) = false) as Hfilled.
  { pose proof (handleGradeAnswers_at s i q Hq) as H. simpl in H.
    rewrite bool_decide_eq_true_2 in H by done.
    rewrite Hck in H. destruct H as [Hs Ha].
    unfold areAllInputsFilled.
    destruct (handleGradeAnswers_fields s) as (_ & _ & Hqs & _).
    rewrite Hqs. case_bool_decide; [done|].
    apply (every_false _ _ i q Hq).
    rewrite Hs, Ha. rewrite bool_decide_eq_false_2 by done.
    by apply blankAnswer_not_filled. }
  split; [done|]. unfold quizButton. rewrite Hfilled.
  destruct (isFinished _); auto.
Qed.

Lemma failed_question_blocks_regrading_witness :
  (qz_shuffledQuestions sample_answered !! 2%nat =
     Some {| sq_question := sample_extraction; originalIndex := 1 |} ∧
   qz_questionStates sample_answered !! keyOf 2 ≠ Some Correct ∧
   checkAnswerAt sample_extraction (qz_userAnswers sample_answered !! keyOf 2)
     = false ∧
   ¬ noBlanks sample_extraction) ∧
  areAllInputsFilled sample_graded = false.
Proof.
  assert (qz_questionStates sample_answered !! keyOf 2 ≠ Some Correct) as Hst
    by (vm_compute; discriminate).
  assert (checkAnswerAt sample_extraction
            (qz_userAnswers sample_answered !! keyOf 2) = false) as Hck
    by (vm_compute; reflexivity).
  assert (¬ noBlanks sample_extraction) as Hnb
    by (intros [_ Ha]; discriminate Ha).
  split; [by repeat split|].
  exact (proj1 (failed_question_blocks_regrading sample_answered 2 _
                  eq_refl Hst Hck Hnb)).
Defined.

(** X8. A quiz that has just started is not finished, every question of it
    is unanswered with its blank answer, and the grading button is
    disabled as long as one of its questions has a blank to fill. *)
Theorem startQuiz_button (qs : list ShuffledQuestion) (now : Z) (i : nat)
    (q : ShuffledQuestion) :
  qs !! i = Some q →
  ¬ noBlanks (sq_question q) →
  quizButton (startQuiz qs now) = GradeButton false ∧
  ∀ (j : nat) (q' : ShuffledQuestion),
    qs !! j = Some q' →
    qz_questionStates (startQuiz qs now) !! keyOf j = Some Unanswered ∧
    qz_userAnswers (startQuiz qs now) !! keyOf j =
      Some (blankAnswer (sq_question q')).
Proof.
  intros Hq Hnb.
  destruct (startQuiz_fields qs now) as (Hs & Ha & Hqs & Hn & _).
  assert (∀ j q', qs !! j = Some q' →
            qz_questionStates (startQuiz qs now) !! keyOf j = Some Unanswered ∧
            qz_userAnswers (startQuiz qs now) !! keyOf j =
              Some (blankAnswer (sq_question q'))) as Hall.
  { intros j q' Hq'. rewrite Hs, Ha. exact (initialEntries_at qs 0 ∅ ∅ j q' Hq'). }
  split; [|exact Hall].
  unfold quizButton, isFinished. rewrite Hn. simpl. f_equal.
  unfold areAllInputsFilled. rewrite Hqs. case_bool_decide; [done|].
  apply (every_false _ _ i q Hq).
  destruct (Hall i q Hq) as [-> ->].
  rewrite bool_decide_eq_false_2 by done. by apply blankAnswer_not_filled.
Qed.

Lemma startQuiz_button_witness :
  (sample_shuffled !! 1%nat =
     Some {| sq_question := sample_choice; originalIndex := 0 |} ∧
   ¬ noBlanks sample_choice) ∧
  quizButton (startQuiz sample_shuffled sample_now) = GradeButton false.
Proof.
  assert (¬ noBlanks sample_choice) as Hnb by (intros [_ Ha]; discriminate Ha).
  split; [split; [reflexivity | exact Hnb]|].
  exact (proj1 (startQuiz_button sample_shuffled sample_now 1 _ eq_refl Hnb)).
Defined.

(** ** Finishing a quiz and showing its result *)

(** The attempt that finishing the quiz stores. *)
Definition finishedAttempt (now savedAt : Z) (s : QuizState) : AnswerData :=
  {| answers := orderAnswers (qz_userAnswers s) (qz_shuffledQuestions s) 0 ∅;
     studyTime := finishStudyTime now (qz_startTime s);
     timestamp := savedAt |}.

(** The value stored for a question without a truthy answer. *)
Definition fallbackAnswer (q : ShuffledQuestion) : UserAnswer :=
  if bool_decide (q_type (sq_question q) = lit "fill-in-the-blank")
  then Arr [] else Str [].

Section Finish.
Implicit Types (s : QuizState) (q : ShuffledQuestion) (k : jsstring).
Implicit Types (ua acc : gmap jsstring UserAnswer).

Lemma finishQuiz_attempts (now savedAt : Z) (work : Work) (excerpt : Excerpt)
    s (prev : UserAnswers) :
  storedAttempts (finishQuiz now savedAt work excerpt s prev)
                 (w_id work) (e_id excerpt) =
    Some (attemptsOf prev (w_id work) (e_id excerpt) ++
          [finishedAttempt now savedAt s]).
Proof. apply storedAttempts_saveAnswers. Qed.

Lemma orderAnswers_other ua (qs : list ShuffledQuestion) (d0 : nat) acc k :
  (∀ q, q ∈ qs → k ≠ keyOf (originalIndex q)) →
  orderAnswers ua qs d0 acc !! k = acc !! k.
Proof.
  revert d0 acc. induction qs as [|q qs IH]; intros d0 acc Hk; [done|].
  simpl. rewrite IH.
  - rewrite lookup_insert_ne; [done|]. intros Heq. symmetry in Heq. revert Heq.
    apply Hk, list_elem_of_here.
  - intros q' Hq'. by apply Hk, list_elem_of_further.
Qed.

Lemma orderAnswers_at ua (qs : list ShuffledQuestion) (d0 : nat) acc (j : nat) q :
  NoDup (originalIndex <$> qs) →
  qs !! j = Some q →
  orderAnswers ua qs d0 acc !! keyOf (originalIndex q) =
    Some (orElse (ua !! keyOf (d0 + j)) (fallbackAnswer q)).
Proof.
  revert d0 acc j.
  induction qs as [|q0 qs IH]; intros d0 acc j Hnd Hq; [done|].
  rewrite fmap_cons in Hnd. apply NoDup_cons in Hnd as [Hnotin Hnd].
  destruct j as [|j]; simpl in Hq.
  - injection Hq as ->. simpl. rewrite Nat.add_0_r, orderAnswers_other.
    + by rewrite lookup_insert_eq.
    + intros q' Hq' Heq%keyOf_inj. apply Hnotin. rewrite Heq.
      apply list_elem_of_fmap. by exists q'.
  - replace (d0 + S j)%nat with (S d0 + j)%nat by lia.
    exact (IH (S d0) _ j Hnd Hq).
Qed.

(** An answer that passes the check is stored as an answer that passes
    it: only the empty string is replaced, and it passes for no
    fill-in-the-blank question. *)
Lemma orElse_check q (v : option UserAnswer) :
  checkAnswerAt (sq_question q) v = true →
  checkAnswerCorrectness (sq_question q) (orElse v (fallbackAnswer q)) = true.
Proof.
  destruct v as [[[|c u]|u]|]; simpl; try done.
  unfold fallbackAnswer. case_bool_decide as Hty; [|done].
  by rewrite (check_fill_in_the_blank _ _ Hty).
Qed.

(** The check looks at the kind and the accepted answer of a question
    only. *)
Lemma checkAnswerCorrectness_ext (q1 q2 : Question) (v : UserAnswer) :
  q_type q1 = q_type q2 → q_a q1 = q_a q2 →
  checkAnswerCorrectness q1 v = checkAnswerCorrectness q2 v.
Proof. intros Hty Ha. unfold checkAnswerCorrectness. by rewrite Hty, Ha. Qed.

Lemma shuffleOptions_same q r :
  shuffleOptions q r →
  originalIndex r = originalIndex q ∧
  q_type (sq_question r) = q_type (sq_question q) ∧
  q_a (sq_question r) = q_a (sq_question q).
Proof.
  unfold shuffleOptions. case_bool_decide; [|by intros ->].
  destruct (q_options (sq_question q)); [|by intros ->].
  by intros (o' & _ & ->).
Qed.

(** The shuffled questions carry each original index once, and each one
    has the kind and the accepted answer of the question at its original
    index. *)
Lemma questionsWithShuffledOptions_indices (e : Excerpt)
    (qs : list ShuffledQuestion) :
  questionsWithShuffledOptions e qs →
  originalIndex <$> qs ≡ₚ seq 0 (length (e_questions e)) ∧
  ∀ q, q ∈ qs →
    ∃ orig : Question,
      e_questions e !! originalIndex q = Some orig ∧
      q_type (sq_question q) = q_type orig ∧
      q_a (sq_question q) = q_a orig.
Proof.
  intros (shuffled & Hperm & Hopts). unfold shuffleArray in Hperm. split.
  - assert (originalIndex <$> qs = originalIndex <$> shuffled) as ->.
    { clear Hperm. induction Hopts as [|x y l k Hxy _ IH]; [done|].
      rewrite !fmap_cons, IH.
      by destruct (shuffleOptions_same x y Hxy) as (-> & _). }
    rewrite Hperm. unfold withOriginalIndex. rewrite fmap_imap.
    rewrite (imap_ext _ (λ j _, id j) (e_questions e)) by done.
    by rewrite imap_seq_0, list_fmap_id.
  - intros q Hq. apply list_elem_of_lookup in Hq as [i Hq].
    destruct (Forall2_lookup_r _ _ _ _ _ Hopts Hq) as (x & Hx & Hxq).
    destruct (shuffleOptions_same x q Hxq) as (-> & -> & ->).
    assert (x ∈ withOriginalIndex (e_questions e)) as Hin.
    { rewrite <- Hperm. apply list_elem_of_lookup. by exists i. }
    apply elem_of_lookup_imap in Hin as (i0 & orig & -> & Horig).
    by exists orig.
Qed.
End Finish.

Lemma sample_shuffled_drawn :
  questionsWithShuffledOptions sample_excerpt sample_shuffled.
Proof.
  exists sample_shuffled. split.
  - unfold shuffleArray, sample_shuffled, sample_excerpt, withOriginalIndex.
    simpl. apply (Permutation_cons_append
                    [ {| sq_question := sample_choice; originalIndex := 0 |};
                      {| sq_question := sample_extraction; originalIndex := 1 |} ]).
  - unfold sample_shuffled.
    constructor; [vm_compute; reflexivity|].
    constructor; [|constructor; [vm_compute; reflexivity | constructor]].
    vm_compute. eexists. split; reflexivity.
Qed.

(** What the finished attempt holds for a shuffled question: the answer
    of its display index (or the fallback) under its original index, and a
    passing answer there when the answer of the session passes. *)
Lemma finishedAttempt_at (e : Excerpt) (s : QuizState) (now savedAt : Z)
    (d : nat) (sq : ShuffledQuestion) :
  questionsWithShuffledOptions e (qz_shuffledQuestions s) →
  qz_shuffledQuestions s !! d = Some sq →
  ∃ orig : Question,
    e_questions e !! originalIndex sq = Some orig ∧
    answers (finishedAttempt now savedAt s) !! keyOf (originalIndex sq) =
      Some (orElse (qz_userAnswers s !! keyOf d) (fallbackAnswer sq)) ∧
    (checkAnswerAt (sq_question sq) (qz_userAnswers s !! keyOf d) = true →
     checkAnswerCorrectness orig
       (orElse (qz_userAnswers s !! keyOf d) (fallbackAnswer sq)) = true).
Proof.
  intros Hdrawn Hsq.
  destruct (questionsWithShuffledOptions_indices e _ Hdrawn) as [Hperm Hsame].
  destruct (Hsame sq) as (orig & Horig & Hty & Ha).
  { apply list_elem_of_lookup. by exists d. }
  exists orig. split; [done|]. split.
  - simpl. apply (orderAnswers_at _ _ 0 ∅ d sq); [|done].
    rewrite Hperm. apply NoDup_seq.
  - intros Hck. rewrite <- (checkAnswerCorrectness_ext _ _ _ Hty Ha).
    by apply orElse_check.
Qed.

(** Every original index is the index of one of the shuffled questions. *)
Lemma questionsWithShuffledOptions_covers (e : Excerpt)
    (qs : list ShuffledQuestion) (i : nat) :
  questionsWithShuffledOptions e qs →
  (i < length (e_questions e))%nat →
  ∃ (d : nat) (sq : ShuffledQuestion), qs !! d = Some sq ∧ originalIndex sq = i.
Proof.
  intros Hdrawn Hi.
  destruct (questionsWithShuffledOptions_indices e _ Hdrawn) as [Hperm _].
  assert (i ∈ originalIndex <$> qs) as Hin.
  { rewrite Hperm. apply elem_of_seq. lia. }
  apply list_elem_of_fmap in Hin as (sq & -> & Hsq).
  apply list_elem_of_lookup in Hsq as [d Hd]. by exists d, sq.
Qed.

(** X9. The attempt stored when a quiz is finished has an answer for
    every question of the excerpt, so the score of that attempt reports,
    for every question, the answer that was stored and never the empty
    answer of a missing entry. *)
Theorem finishedAttempt_complete (e : Excerpt) (s : QuizState)
    (now savedAt : Z) (i : nat) (r : QuestionResult) :
  questionsWithShuffledOptions e (qz_shuffledQuestions s) →
  results (getScore (Some e) (Some (finishedAttempt now savedAt s))) !! i = Some r →
  answers (finishedAttempt now savedAt s) !! keyOf i = Some (userAnswer r).
Proof.
  intros Hdrawn Hr. rewrite getScore_results_lookup in Hr.
  destruct (e_questions e !! i) as [q|] eqn:Hq; [|done].
  injection Hr as <-.
  destruct (questionsWithShuffledOptions_covers e _ i Hdrawn)
    as (d & sq & Hsq & <-); [by eapply lookup_lt_Some|].
  destruct (finishedAttempt_at e s now savedAt d sq Hdrawn Hsq)
    as (orig & _ & Hans & _).
  by rewrite (gradeQuestion_present q _ _ _ Hans).
Qed.

Lemma finishedAttempt_complete_witness :
  questionsWithShuffledOptions sample_excerpt (qz_shuffledQuestions sample_graded) ∧
  results (getScore (Some sample_excerpt)
             (Some (finishedAttempt sample_now sample_now sample_graded))) !! 2%nat =
    Some {| isCorrect := false; userAnswer := Arr [[]; []];
            correctAnswer := Arr [lit "a"; lit "b"] |} ∧
  answers (finishedAttempt sample_now sample_now sample_graded) !! keyOf 2 =
    Some (Arr [[]; []]).
Proof.
  assert (results (getScore (Some sample_excerpt)
            (Some (finishedAttempt sample_now sample_now sample_graded))) !! 2%nat =
          Some {| isCorrect := false; userAnswer := Arr [[]; []];
                  correctAnswer := Arr [lit "a"; lit "b"] |}) as Hr
    by (vm_compute; reflexivity).
  split; [exact sample_shuffled_drawn|]. split; [exact Hr|].
  exact (finishedAttempt_complete sample_excerpt sample_graded sample_now
           sample_now 2 _ sample_shuffled_drawn Hr).
Defined.

(** X10. A question that is marked correct when the quiz is finished is
    scored correct in the attempt that is stored, at its original
    index. *)
Theorem locked_scored_correct (e : Excerpt) (s : QuizState) (now savedAt : Z)
    (d : nat) (sq : ShuffledQuestion) :
  questionsWithShuffledOptions e (qz_shuffledQuestions s) →
  lockedAnswersPass s →
  qz_shuffledQuestions s !! d = Some sq →
  qz_questionStates s !! keyOf d = Some Correct →
  ∃ r, results (getScore (Some e) (Some (finishedAttempt now savedAt s)))
         !! originalIndex sq = Some r ∧
       isCorrect r = true.
Proof.
  intros Hdrawn Hinv Hsq Hst.
  destruct (finishedAttempt_at e s now savedAt d sq Hdrawn Hsq)
    as (orig & Horig & Hans & Hck).
  eexists. split.
  - rewrite getScore_results_lookup, Horig. simpl.
    by rewrite (gradeQuestion_present orig _ _ _ Hans).
  - simpl. apply Hck. by apply (Hinv d sq).
Qed.

Lemma sample_graded_locked : lockedAnswersPass sample_graded.
Proof.
  intros i q Hq Hst. destruct i as [|[|[|i]]]; simpl in Hq; [| | |done];
    injection Hq as <-; vm_compute in Hst; try discriminate Hst.
  vm_compute. reflexivity.
Qed.

Lemma locked_scored_correct_witness :
  (questionsWithShuffledOptions sample_excerpt (qz_shuffledQuestions sample_graded) ∧
   lockedAnswersPass sample_graded ∧
   qz_shuffledQuestions sample_graded !! 1%nat =
     Some {| sq_question := sample_choice; originalIndex := 0 |} ∧
   qz_questionStates sample_graded !! keyOf 1 = Some Correct) ∧
  ∃ r, results (getScore (Some sample_excerpt)
                  (Some (finishedAttempt sample_now sample_now sample_graded)))
         !! 0%nat = Some r ∧
       isCorrect r = true.
Proof.
  assert (qz_questionStates sample_graded !! keyOf 1 = Some Correct) as Hst
    by (vm_compute; reflexivity).
  split.
  - split; [exact sample_shuffled_drawn|]. split; [exact sample_graded_locked|].
    split; [reflexivity | exact Hst].
  - exact (locked_scored_correct sample_excerpt sample_graded sample_now
             sample_now 1 _ sample_shuffled_drawn sample_graded_locked
             eq_refl Hst).
Defined.

(** X11. When every question is marked correct at the end of the quiz,
    the attempt that is stored has a perfect score. *)
Theorem all_locked_perfect_score (e : Excerpt) (s : QuizState)
    (now savedAt : Z) :
  questionsWithShuffledOptions e (qz_shuffledQuestions s) →
  lockedAnswersPass s →
  (∀ (d : nat) (sq : ShuffledQuestion),
     qz_shuffledQuestions s !! d = Some sq →
     qz_questionStates s !! keyOf d = Some Correct) →
  correct (getScore (Some e) (Some (finishedAttempt now savedAt s))) =
    length (e_questions e) ∧
  total (getScore (Some e) (Some (finishedAttempt now savedAt s))) =
    length (e_questions e).
Proof.
  intros Hdrawn Hinv Hall.
  destruct (getScore_fields e (finishedAttempt now savedAt s)) as (Ht & _).
  split; [|done]. apply all_pass_perfect.
  intros i q Hq.
  destruct (questionsWithShuffledOptions_covers e _ i Hdrawn)
    as (d & sq & Hsq & <-); [by eapply lookup_lt_Some|].
  destruct (finishedAttempt_at e s now savedAt d sq Hdrawn Hsq)
    as (orig & Horig & Hans & Hck).
  rewrite Hq in Horig. injection Horig as <-.
  eexists. split; [exact Hans|].
  apply Hck. apply (Hinv d sq Hsq). by apply (Hall d sq).
Qed.

(** The sample session with three right answers, graded. *)
Definition sample_all_right : QuizState :=
  handleGradeAnswers
    {| qz_userAnswers :=
         {[ keyOf 0 := Arr [lit "a "; lit " b"];
            keyOf 1 := Str (lit "watashi");
            keyOf 2 := Str (lit " kokoro") ]};
       qz_shuffledQuestions := sample_shuffled;
       qz_startTime := sample_now - 90500;
       qz_attemptNumber := 1;
       qz_questionStates :=
         {[ keyOf 0 := Incorrect; keyOf 1 := Correct; keyOf 2 := Incorrect ]} |}.

Lemma all_locked_perfect_score_witness :
  (questionsWithShuffledOptions sample_excerpt
     (qz_shuffledQuestions sample_all_right) ∧
   lockedAnswersPass sample_all_right ∧
   ∀ (d : nat) (sq : ShuffledQuestion),
     qz_shuffledQuestions sample_all_right !! d = Some sq →
     qz_questionStates sample_all_right !! keyOf d = Some Correct) ∧
  correct (getScore (Some sample_excerpt)
             (Some (finishedAttempt sample_now sample_now sample_all_right))) =
    3%nat.
Proof.
  assert (∀ (d : nat) (sq : ShuffledQuestion),
            qz_shuffledQuestions sample_all_right !! d = Some sq →
            qz_questionStates sample_all_right !! keyOf d = Some Correct) as Hall.
  { intros d sq Hsq. destruct d as [|[|[|d]]]; simpl in Hsq; [| | |done];
      vm_compute; reflexivity. }
  assert (lockedAnswersPass sample_all_right) as Hinv.
  { intros d sq Hsq _. destruct d as [|[|[|d]]]; simpl in Hsq; [| | |done];
      injection Hsq as <-; vm_compute; reflexivity. }
  split; [split; [exact sample_shuffled_drawn | split; [exact Hinv | exact Hall]]|].
  exact (proj1 (all_locked_perfect_score sample_excerpt sample_all_right
                  sample_now sample_now sample_shuffled_drawn Hinv Hall)).
Defined.

Lemma find_Some_elem {A} (f : A → bool) (l : list A) (x : A) :
  find f l = Some x → f x = true.
Proof.
  induction l as [|y l IH]; simpl; [done|].
  destruct (f y) eqn:E; [by intros [= <-] | done].
Qed.

(** X12. After a quiz is finished, the result page of its route (the work
    and the excerpt found for the route parameters) shows the score of the
    attempt that was just stored, whatever was stored before. *)
Theorem resultPage_after_finish (works : list Work) (workId excerptId : jsstring)
    (work : Work) (excerpt : Excerpt) (s : QuizState) (now savedAt : Z)
    (prev : UserAnswers) :
  workId ≠ [] →
  findWork works (Some workId) = Some work →
  findExcerpt (Some work) (Some excerptId) = Some excerpt →
  resultPage works (finishQuiz now savedAt work excerpt s prev)
             (Some workId) (Some excerptId) =
    Some (getScore (Some excerpt) (Some (finishedAttempt now savedAt s))).
Proof.
  intros Hne Hw He. unfold resultPage. rewrite Hw, He.
  simpl in Hw, He.
  apply find_Some_elem, bool_decide_eq_true in Hw.
  apply find_Some_elem, bool_decide_eq_true in He.
  assert (latestAttempt (finishQuiz now savedAt work excerpt s prev)
            (Some workId) (Some excerptId) =
          Some (finishedAttempt now savedAt s)) as ->; [|done].
  unfold latestAttempt. rewrite bool_decide_eq_true_2.
  - pose proof (finishQuiz_attempts now savedAt work excerpt s prev) as Hst.
    unfold storedAttempts in Hst. rewrite Hw, He in Hst. rewrite Hst.
    simpl. apply last_snoc.
  - split; [done|]. rewrite <- He. apply toString_nonempty.
Qed.

Lemma resultPage_after_finish_witness :
  (lit "kokoro" ≠ [] ∧
   findWork [sample_work] (Some (lit "kokoro")) = Some sample_work ∧
   findExcerpt (Some sample_work) (Some (lit "1")) = Some sample_excerpt) ∧
  resultPage [sample_work]
    (finishQuiz sample_now sample_now sample_work sample_excerpt
                sample_graded sample_history)
    (Some (lit "kokoro")) (Some (lit "1")) =
  Some (getScore (Some sample_excerpt)
          (Some (finishedAttempt sample_now sample_now sample_graded))).
Proof.
  assert (lit "kokoro" ≠ []) as Hne by (vm_compute; discriminate).
  split; [split; [exact Hne | split; reflexivity]|].
  exact (resultPage_after_finish [sample_work] (lit "kokoro") (lit "1")
           sample_work sample_excerpt sample_graded sample_now sample_now
           sample_history Hne eq_refl eq_refl).
Defined.

(** ** Further properties of the history *)

Section History.
Variable LocalTZA : Z → bool → Z.
Variable now : Z.

Lemma totalStudyTime_app (l1 l2 : list ScoredAttempt) :
  totalStudyTime (l1 ++ l2) = totalStudyTime l1 + totalStudyTime l2.
Proof.
  unfold totalStudyTime. induction l1 as [|a l1 IH]; simpl; [done|].
  rewrite IH. lia.
Qed.

Lemma totalStudyTime_perm (l1 l2 : list ScoredAttempt) :
  l1 ≡ₚ l2 → totalStudyTime l1 = totalStudyTime l2.
Proof.
  unfold totalStudyTime.
  induction 1 as [|x l l' _ IH|x y l|l l' l'' _ IH1 _ IH2]; simpl;
    [done | by rewrite IH | lia | by rewrite IH1].
Qed.

(** The five buckets of a list of attempts, one after the other, hold the
    attempts of the list. *)
Lemma buckets_perm (all : list ScoredAttempt) :
  bucketOf LocalTZA now all today ++ bucketOf LocalTZA now all yesterday ++
  bucketOf LocalTZA now all sevenDays ++ bucketOf LocalTZA now all thirtyDays ++
  bucketOf LocalTZA now all older ≡ₚ all.
Proof.
  unfold bucketOf. induction all as [|a all IH]; [done|].
  rewrite !filter_cons.
  pose proof (categoryKeyOf_not_thirtyDays LocalTZA now a) as Hnot.
  destruct (categoryKeyOf LocalTZA now a) eqn:E; repeat case_decide; try done.
  - rewrite <- app_comm_cons. by rewrite IH.
  - rewrite <- app_comm_cons, <- Permutation_middle. by rewrite IH.
  - rewrite <- app_comm_cons, (app_assoc (filter _ all) (filter _ all)).
    rewrite <- Permutation_middle, <- app_assoc. by rewrite IH.
  - rewrite !(app_assoc _ _ (a :: _)).
    rewrite <- Permutation_middle, <- !app_assoc. by rewrite IH.
Qed.

(** Leaving out the entries without attempts loses no attempt. *)
Lemma listed_attempts (categories : list (CategoryKey * Category)) :
  concat ((λ entry, attempts entry.2) <$>
          filter (λ '(_, data), (0 < length (attempts data))%nat) categories) =
  concat ((λ entry, attempts entry.2) <$> categories).
Proof.
  induction categories as [|[key data] l IH]; [done|].
  rewrite filter_cons. case_decide as Hlen; rewrite !fmap_cons; cbn [concat].
  - by rewrite IH.
  - rewrite IH. cbn [snd]. destruct (attempts data); [done | simpl in Hlen; lia].
Qed.
End History.

(** The sum of the totals of the listed entries. *)
Definition listedTime (listing : list (CategoryKey * Category)) : Z :=
  foldr (λ entry t, totalTime entry.2 + t) 0 listing.

Lemma listed_perm (LocalTZA : Z → bool → Z) (works : list Work) (now : Z)
    (answers : UserAnswers) :
  concat ((λ entry, attempts entry.2) <$>
          categorizedAttempts LocalTZA works now answers) ≡ₚ
    allAttempts works answers.
Proof.
  unfold categorizedAttempts. rewrite listed_attempts, categorize_filled.
  unfold initialCategories, filled. simpl. rewrite app_nil_r.
  apply buckets_perm.
Qed.

(** X13. The listed entries together hold every attempt of [allAttempts]
    once, none lost and none twice, and their totals add up to the study
    time of all of them. *)
Theorem categorized_partition (LocalTZA : Z → bool → Z) (works : list Work) (now : Z)
    (answers : UserAnswers) :
  concat ((λ entry, attempts entry.2) <$>
          categorizedAttempts LocalTZA works now answers) ≡ₚ
    allAttempts works answers ∧
  listedTime (categorizedAttempts LocalTZA works now answers) =
    totalStudyTime (allAttempts works answers).
Proof.
  pose proof (listed_perm LocalTZA works now answers) as Hperm.
  split; [exact Hperm|].
  rewrite <- (totalStudyTime_perm _ _ Hperm).
  assert (∀ l : list (CategoryKey * Category),
            (∀ key data, (key, data) ∈ l →
                         totalTime data = totalStudyTime (attempts data)) →
            listedTime l =
              totalStudyTime (concat ((λ entry, attempts entry.2) <$> l))) as Hsum.
  { induction l as [|[key data] l IH]; intros Hl; [done|].
    rewrite fmap_cons. cbn [concat]. rewrite totalStudyTime_app.
    change (listedTime ((key, data) :: l)) with (totalTime data + listedTime l).
    rewrite IH.
    - by rewrite (Hl key data) by apply list_elem_of_here.
    - intros k d Hin. apply (Hl k d). by apply list_elem_of_further. }
  apply Hsum. intros key data Hin.
  by destruct (categorizedAttempts_listed LocalTZA now works answers key data Hin)
    as (_ & Ht & _).
Qed.

(** X14. The entries are listed in the order of the keys of the
    [categories] object, from today to older, each key at most once. *)
Theorem categorized_order (LocalTZA : Z → bool → Z) (works : list Work) (now : Z)
    (answers : UserAnswers) :
  (fst <$> categorizedAttempts LocalTZA works now answers) `sublist_of`
    [today; yesterday; sevenDays; thirtyDays; older].
Proof.
  unfold categorizedAttempts. rewrite categorize_filled.
  etrans; [apply fmap_sublist, sublist_filter|]. done.
Qed.

(** X15. In a regular time zone with valid boundary dates, the boundary of
    yesterday and the boundary of seven days are the instants of the local
    time of the start of today moved back by one and by seven days of the
    calendar, they come in that order before the start of today, and an
    attempt with a valid timestamp is sent to today from the start of
    today on, to yesterday from the boundary of yesterday on, to the last
    seven days from the boundary of seven days on, and to older before. *)
Theorem bucket_boundaries (LocalTZA : Z → bool → Z) (now t b1 b7 : Z)
    (attempt : ScoredAttempt) :
  zoneRegular LocalTZA →
  todayStart LocalTZA now = Some t →
  yesterdayStart LocalTZA now = Some b1 →
  sevenDaysAgo LocalTZA now = Some b7 →
  Z.abs (timestamp (sa_attempt attempt)) ≤ maxTime →
  let ts := timestamp (sa_attempt attempt) in
  b1 = UTC LocalTZA (LocalTime LocalTZA t - 1 * msPerDay) ∧
  b7 = UTC LocalTZA (LocalTime LocalTZA t - 7 * msPerDay) ∧
  b7 ≤ b1 ≤ t ∧
  categoryKeyOf LocalTZA now attempt =
    (if bool_decide (t ≤ ts) then today
     else if bool_decide (b1 ≤ ts) then yesterday
     else if bool_decide (b7 ≤ ts) then sevenDays
     else older).
Proof.
  intros Hzone Ht H1 H7 Hts. cbv zeta.
  unfold yesterdayStart, sevenDaysAgo in H1, H7. rewrite Ht in H1, H7.
  split; [by apply daysBefore_Some|]. split; [by apply daysBefore_Some|].
  split.
  - split; [by apply (boundaries_ordered LocalTZA t); [apply Hzone|..] |
            by apply (yesterdayStart_le_todayStart LocalTZA t)].
  - unfold categoryKeyOf, yesterdayStart, sevenDaysAgo, thirtyDaysAgo, newDate.
    rewrite Ht, H1, H7.
    assert (TimeClip (timestamp (sa_attempt attempt)) =
            Some (timestamp (sa_attempt attempt))) as ->.
    { unfold TimeClip. by rewrite bool_decide_eq_true_2. }
    simpl. repeat case_bool_decide; try done. by case_match.
Qed.

(** An attempt made in New York on 2024-03-10 at 00:30 local time, the day
    the clocks went forward. *)
Definition newYork_march_attempt : ScoredAttempt :=
  let attempt :=
    {| answers := ∅; studyTime := 20; timestamp := 1710045000000 |} in
  {| sa_workId := lit "kokoro"; sa_excerptId := 1;
     sa_score := getScore (Some sample_excerpt) (Some attempt);
     sa_attempt := attempt |}.

(** On 2024-03-11 at noon in New York, yesterday has 23 hours and starts
    at 05:00 UTC, so an attempt made at 04:30 UTC is of the last seven
    days. *)
Lemma bucket_boundaries_witness :
  (zoneRegular newYork2024 ∧
   todayStart newYork2024 1710172800000 = Some 1710129600000 ∧
   yesterdayStart newYork2024 1710172800000 = Some 1710046800000 ∧
   sevenDaysAgo newYork2024 1710172800000 = Some 1709528400000 ∧
   Z.abs (timestamp (sa_attempt newYork_march_attempt)) ≤ maxTime) ∧
  categoryKeyOf newYork2024 1710172800000 newYork_march_attempt = sevenDays.
Proof.
  assert (todayStart newYork2024 1710172800000 = Some 1710129600000) as Ht
    by (vm_compute; reflexivity).
  assert (yesterdayStart newYork2024 1710172800000 = Some 1710046800000) as H1
    by (vm_compute; reflexivity).
  assert (sevenDaysAgo newYork2024 1710172800000 = Some 1709528400000) as H7
    by (vm_compute; reflexivity).
  assert (Z.abs (timestamp (sa_attempt newYork_march_attempt)) ≤ maxTime) as Hts
    by (vm_compute; discriminate).
  split.
  { split; [exact newYork2024_regular|]. split; [exact Ht|].
    split; [exact H1|]. split; [exact H7 | exact Hts]. }
  exact (proj2 (proj2 (proj2 (bucket_boundaries newYork2024 1710172800000 _ _ _
                                newYork_march_attempt newYork2024_regular
                                Ht H1 H7 Hts)))).
Defined.

(** A stored attempt of a work and an excerpt that are found is in
    [allAttempts], with the id of the excerpt and its score. *)
Lemma allAttempts_stored (works : list Work) (answers : UserAnswers)
    (workId excerptId : jsstring) (excerpts : gmap jsstring (list AnswerData))
    (stored : list AnswerData) (work : Work) (excerpt : Excerpt)
    (ad : AnswerData) :
  answers !! workId = Some excerpts →
  excerpts !! excerptId = Some stored →
  findWork works (Some workId) = Some work →
  findExcerpt (Some work) (Some excerptId) = Some excerpt →
  ad ∈ stored →
  {| sa_workId := workId; sa_excerptId := e_id excerpt;
     sa_score := getScore (Some excerpt) (Some ad); sa_attempt := ad |}
    ∈ allAttempts works answers.
Proof.
  intros Hw He Hfw Hfe Had.
  unfold allAttempts. rewrite merge_sort_Permutation.
  apply list_elem_of_bind. exists (workId, excerpts).
  split; [|by apply elem_of_map_to_list].
  apply list_elem_of_bind. exists (excerptId, stored).
  split; [|by apply elem_of_map_to_list].
  unfold scoredAttemptsOf. simpl in Hfw, Hfe. rewrite Hfw, Hfe.
  apply list_elem_of_fmap. by exists ad.
Qed.

(** Every element of [allAttempts] is a stored attempt of a work and an
    excerpt that are found, with the id of the excerpt and its score. *)
Lemma allAttempts_found (works : list Work) (answers : UserAnswers)
    (a : ScoredAttempt) :
  a ∈ allAttempts works answers →
  ∃ (excerpts : gmap jsstring (list AnswerData)) (excerptId : jsstring)
    (stored : list AnswerData) (work : Work) (excerpt : Excerpt),
    answers !! sa_workId a = Some excerpts ∧
    excerpts !! excerptId = Some stored ∧
    findWork works (Some (sa_workId a)) = Some work ∧
    findExcerpt (Some work) (Some excerptId) = Some excerpt ∧
    sa_attempt a ∈ stored ∧
    a = {| sa_workId := sa_workId a;
           sa_excerptId := e_id excerpt;
           sa_score := getScore (Some excerpt) (Some (sa_attempt a));
           sa_attempt := sa_attempt a |}.
Proof.
  unfold allAttempts. rewrite merge_sort_Permutation, list_elem_of_bind.
  intros ([workId excerpts] & Hin & Hw%elem_of_map_to_list).
  apply list_elem_of_bind in Hin
    as ([excerptId stored] & Hin & He%elem_of_map_to_list).
  unfold scoredAttemptsOf in Hin.
  destruct (find _ works) as [work|] eqn:Hfw; [|by apply elem_of_nil in Hin].
  destruct (find _ (w_excerpts work)) as [excerpt|] eqn:Hfe;
    [|by apply elem_of_nil in Hin].
  apply list_elem_of_fmap in Hin as (ad & -> & Had). simpl.
  by exists excerpts, excerptId, stored, work, excerpt.
Qed.

(** X16. [allAttempts] holds exactly the stored attempts of the works and
    excerpts that are found in the content, each with the id of the
    excerpt found and its score there; attempts stored under a work or an
    excerpt that is not found are left out. *)
Theorem allAttempts_elem (works : list Work) (answers : UserAnswers)
    (a : ScoredAttempt) :
  a ∈ allAttempts works answers ↔
  ∃ (excerpts : gmap jsstring (list AnswerData)) (excerptId : jsstring)
    (stored : list AnswerData) (work : Work) (excerpt : Excerpt),
    answers !! sa_workId a = Some excerpts ∧
    excerpts !! excerptId = Some stored ∧
    findWork works (Some (sa_workId a)) = Some work ∧
    findExcerpt (Some work) (Some excerptId) = Some excerpt ∧
    sa_attempt a ∈ stored ∧
    a = {| sa_workId := sa_workId a;
           sa_excerptId := e_id excerpt;
           sa_score := getScore (Some excerpt) (Some (sa_attempt a));
           sa_attempt := sa_attempt a |}.
Proof.
  split.
  - apply allAttempts_found.
  - intros (excerpts & excerptId & stored & work & excerpt &
            Hw & He & Hfw & Hfe & Had & ->).
    by apply (allAttempts_stored works answers _ excerptId excerpts stored
                work excerpt).
Qed.

(** The midnight that starts the local day of an instant is not after
    that instant, as in a zone that does not move its clocks forward from
    before a midnight to after it. *)
Definition zoneMidnights (LocalTZA : Z → bool → Z) : Prop :=
  ∀ u, UTC LocalTZA (MakeDate (Day (LocalTime LocalTZA u)) 0) ≤ u.

(** Outside of the years 0 to 99 the start of today is not after now. *)
Lemma todayStart_le (LocalTZA : Z → bool → Z) (now t : Z) :
  zoneMidnights LocalTZA →
  twoDigitYear (Day (LocalTime LocalTZA now)) = false →
  todayStart LocalTZA now = Some t → t ≤ now.
Proof.
  unfold todayStart, startOfDay, constructorDay.
  intros Hmid -> ->%TimeClip_Some. apply Hmid.
Qed.

(** On 0050-06-15 at noon, in a zone without offset, the start of today
    is a day of 1950, and an attempt made at that noon is listed as
    older. *)
Example todayStart_year_50 :
  let attempt :=
    {| answers := ∅; studyTime := 20; timestamp := -60574996800000 |} in
  twoDigitYear (Day (LocalTime (λ _ _, 0) (-60574996800000))) = true ∧
  todayStart (λ _ _, 0) (-60574996800000) = Some (-616896000000) ∧
  categoryKeyOf (λ _ _, 0) (-60574996800000)
    {| sa_workId := lit "kokoro"; sa_excerptId := 1;
       sa_score := getScore (Some sample_excerpt) (Some attempt);
       sa_attempt := attempt |} = older.
Proof. repeat split; vm_compute; reflexivity. Qed.

(** A zone of fixed offset skips no midnight. *)
Lemma fixedOffset_midnights (tza : Z) : zoneMidnights (λ _ _, tza).
Proof.
  intros u. unfold UTC, LocalTime, MakeDate, Day, msPerDay.
  pose proof (Z.div_mod (u + tza) 86400000 ltac:(lia)).
  pose proof (Z.mod_pos_bound (u + tza) 86400000 ltac:(lia)). lia.
Qed.

(** Neither does New York, which moves its clocks at two in the morning. *)
Lemma newYork2024_midnights : zoneMidnights newYork2024.
Proof.
  intros u. unfold UTC, LocalTime, MakeDate, Day, msPerDay.
  set (o := newYork2024 u true).
  pose proof (Z.div_mod (u + o) 86400000 ltac:(lia)) as Hdiv.
  pose proof (Z.mod_pos_bound (u + o) 86400000 ltac:(lia)) as Hmod.
  set (q := (u + o) `div` 86400000) in *.
  unfold newYork2024 in *. subst o.
  repeat case_bool_decide; lia.
Qed.

(** X17. An attempt saved now for a work and an excerpt of the content is
    listed under today when the history is computed at the same instant,
    with its score, given that the start of today is a valid date, in
    every zone where the midnight that starts a day is not after the
    instants of the day (a zone of fixed offset is one), when the local
    year of now is not one of the years 0 to 99. *)
Theorem saved_attempt_listed_today (LocalTZA : Z → bool → Z)
    (works : list Work) (now t : Z)
    (workId : jsstring) (excerptId : Z) (work : Work) (excerpt : Excerpt)
    (ua : gmap jsstring UserAnswer) (seconds : Z) (prev : UserAnswers) :
  zoneMidnights LocalTZA →
  twoDigitYear (Day (LocalTime LocalTZA now)) = false →
  findWork works (Some workId) = Some work →
  findExcerpt (Some work) (Some (toString excerptId)) = Some excerpt →
  todayStart LocalTZA now = Some t →
  Z.abs now ≤ maxTime →
  let ad := {| answers := ua; studyTime := seconds; timestamp := now |} in
  ∃ data,
    (today, data) ∈
      categorizedAttempts LocalTZA works now
        (saveAnswers now workId excerptId ua seconds prev) ∧
    {| sa_workId := workId; sa_excerptId := e_id excerpt;
       sa_score := getScore (Some excerpt) (Some ad); sa_attempt := ad |}
      ∈ attempts data.
Proof.
  intros Hmid Hyear Hfw Hfe Ht Hnow. simpl.
  set (ad := {| answers := ua; studyTime := seconds; timestamp := now |}).
  set (a := {| sa_workId := workId; sa_excerptId := e_id excerpt;
               sa_score := getScore (Some excerpt) (Some ad);
               sa_attempt := ad |}).
  assert (categoryKeyOf LocalTZA now a = today) as Hkey.
  { unfold categoryKeyOf, newDate. rewrite Ht. simpl.
    unfold TimeClip. rewrite bool_decide_eq_true_2 by done. simpl.
    rewrite bool_decide_eq_true_2; [done|].
    by apply (todayStart_le LocalTZA now t). }
  assert (a ∈ allAttempts works
                (saveAnswers now workId excerptId ua seconds prev)) as Hin.
  { pose proof (storedAttempts_saveAnswers now workId excerptId ua seconds prev)
      as Hst.
    unfold storedAttempts in Hst.
    destruct (saveAnswers now workId excerptId ua seconds prev !! workId)
      as [excerpts|] eqn:Hw; [|done].
    simpl in Hst.
    apply (allAttempts_stored works _ workId (toString excerptId) excerpts
             (attemptsOf prev workId excerptId ++ [ad]) work excerpt ad);
      try done.
    apply elem_of_app. right. apply list_elem_of_here. }
  destruct (categorizedAttempts_complete LocalTZA now works _ a Hin)
    as (data & Hdata & Ha).
  rewrite Hkey in Hdata. by exists data.
Qed.

(** The instance is taken in the sample zone, of fixed offset. *)
Lemma saved_attempt_listed_today_witness :
  (zoneMidnights sample_zone ∧
   twoDigitYear (Day (LocalTime sample_zone sample_now)) = false ∧
   findWork [sample_work] (Some (lit "kokoro")) = Some sample_work ∧
   findExcerpt (Some sample_work) (Some (toString 1)) = Some sample_excerpt ∧
   todayStart sample_zone sample_now = Some (20000 * msPerDay - sample_tza) ∧
   Z.abs sample_now ≤ maxTime) ∧
  ∃ data,
    (today, data) ∈
      categorizedAttempts sample_zone [sample_work] sample_now
        (saveAnswers sample_now (lit "kokoro") 1 ∅ 5 sample_history) ∧
    {| sa_workId := lit "kokoro"; sa_excerptId := 1;
       sa_score := getScore (Some sample_excerpt)
                     (Some {| answers := ∅; studyTime := 5;
                              timestamp := sample_now |});
       sa_attempt := {| answers := ∅; studyTime := 5; timestamp := sample_now |} |}
      ∈ attempts data.
Proof.
  assert (Z.abs sample_now ≤ maxTime) as Hnow by (vm_compute; discriminate).
  pose proof (fixedOffset_midnights sample_tza) as Hmid.
  split; [split; [exact Hmid | split; [reflexivity | split; [reflexivity | split;
            [reflexivity | split; [reflexivity | exact Hnow]]]]]|].
  exact (saved_attempt_listed_today sample_zone [sample_work] sample_now _
           (lit "kokoro") 1 sample_work sample_excerpt ∅ 5 sample_history
           Hmid eq_refl eq_refl eq_refl eq_refl Hnow).
Defined.

(** ** Displayed times *)

(** [formatTime]: seconds below a minute as ["N秒"], otherwise
    ["M分S秒"]; a negative time counts as 0. *)
Definition formatTime (totalSeconds : Z) : jsstring :=
  let totalSeconds := if bool_decide (totalSeconds < 0) then 0 else totalSeconds in
  if bool_decide (totalSeconds < 60) then toString totalSeconds ++ [31186%N]
  else
    let minutes := totalSeconds `div` 60 in
    let seconds := totalSeconds `mod` 60 in
    toString minutes ++ [20998%N] ++ toString seconds ++ [31186%N].

Lemma digits_split (l1 l2 r1 r2 : jsstring) (c : N) :
  isDigit c = false →
  Forall (λ x, isDigit x = true) l1 →
  Forall (λ x, isDigit x = true) l2 →
  l1 ++ c :: r1 = l2 ++ c :: r2 →
  l1 = l2 ∧ r1 = r2.
Proof.
  intros Hc. revert l2. induction l1 as [|x l1 IH]; intros l2 H1 H2 Heq.
  - destruct l2 as [|y l2]; simpl in Heq.
    + by injection Heq as ->.
    + injection Heq as <- _. apply Forall_cons in H2 as [Hy _]. congruence.
  - destruct l2 as [|y l2]; simpl in Heq.
    + injection Heq as -> _. apply Forall_cons in H1 as [Hx _]. congruence.
    + injection Heq as -> Heq.
      apply Forall_cons in H1 as [_ H1]. apply Forall_cons in H2 as [_ H2].
      destruct (IH l2 H1 H2 Heq) as [-> ->]. done.
Qed.

(** X18. Two times are displayed alike only when they are the same number
    of seconds, negative times counting as 0. *)
Theorem formatTime_inj (a b : Z) :
  formatTime a = formatTime b → Z.max 0 a = Z.max 0 b.
Proof.
  unfold formatTime.
  assert (∀ x, (if bool_decide (x < 0) then 0 else x) = Z.max 0 x) as Hmax
    by (intros x; case_bool_decide; lia).
  rewrite !Hmax. generalize (Z.le_max_l 0 a) (Z.le_max_l 0 b).
  generalize (Z.max 0 a) (Z.max 0 b). clear a b Hmax. intros a b Ha Hb.
  assert (isDigit 31186 = false) as Hbyo by reflexivity.
  assert (isDigit 20998 = false) as Hfun by reflexivity.
  assert (∀ x, 0 ≤ x → Forall (λ c, isDigit c = true) (toString (x `div` 60)))
    as Hdiv by (intros x Hx; apply toString_digits; by apply Z.div_pos).
  assert (∀ x, Forall (λ c, isDigit c = true) (toString (x `mod` 60)))
    as Hmod.
  { intros x. apply toString_digits.
    by destruct (Z.mod_pos_bound x 60 ltac:(lia)). }
  repeat case_bool_decide; intros Heq.
  - apply app_inj_tail in Heq as [Heq _]. by apply toString_inj.
  - exfalso. rewrite !app_assoc in Heq. apply app_inj_tail in Heq as [Heq _].
    pose proof (toString_digits a Ha) as Hd. rewrite Heq in Hd.
    rewrite <- app_assoc in Hd. apply Forall_app in Hd as [_ Hd].
    apply Forall_cons in Hd as [Hd _]. congruence.
  - exfalso. rewrite !app_assoc in Heq. apply app_inj_tail in Heq as [Heq _].
    pose proof (toString_digits b Hb) as Hd. rewrite <- Heq in Hd.
    rewrite <- app_assoc in Hd. apply Forall_app in Hd as [_ Hd].
    apply Forall_cons in Hd as [Hd _]. congruence.
  - simpl in Heq.
    apply (digits_split _ _ _ _ _ Hfun (Hdiv a Ha) (Hdiv b Hb)) in Heq
      as [Hm%toString_inj Hs].
    apply app_inj_tail in Hs as [Hs%toString_inj _].
    rewrite (Z.div_mod a 60), (Z.div_mod b 60) by lia. by rewrite Hm, Hs.
Qed.

Lemma formatTime_inj_witness :
  formatTime (-5) = formatTime 0 ∧ Z.max 0 (-5) = Z.max 0 0.
Proof.
  assert (formatTime (-5) = formatTime 0) as H by reflexivity.
  split; [exact H | exact (formatTime_inj (-5) 0 H)].
Defined.

(** ** Annotated text (renderTextWithAnnotations) *)

(** The code unit of the reference mark [※]. *)
Definition noteMark : N := 8251.

Definition startsWithDigit (s : jsstring) : bool :=
  match s with
  | d :: _ => isDigit d
  | [] => false
  end.

(** [text.split(/(※\d+)/g)] as a scan of the text: the pieces between the
    matches and, because of the capturing group, the matches themselves,
    in order. A match is a reference mark followed by as many digits as
    follow it. [cur] is the piece being read, [mark] the match being read. *)
Fixpoint splitMarks (text cur : jsstring) (mark : option jsstring)
  : list jsstring :=
  match text with
  | [] =>
      match mark with
      | Some m => [m; []]
      | None => [cur]
      end
  | c :: rest =>
      match mark with
      | Some m =>
          if isDigit c then splitMarks rest cur (Some (m ++ [c]))
          else
            m :: (if (c =? noteMark)%N && startsWithDigit rest
                  then [] :: splitMarks rest [] (Some [c])
                  else splitMarks rest [c] None)
      | None =>
          if (c =? noteMark)%N && startsWithDigit rest
          then cur :: splitMarks rest [] (Some [c])
          else splitMarks rest (cur ++ [c]) None
      end
  end.

Definition splitNotes (text : jsstring) : list jsstring :=
  splitMarks text [] None.

(** [part.match(/※\d+/)] as a condition: a reference mark followed by a
    digit occurs in the part. *)
Fixpoint hasMark (part : jsstring) : bool :=
  match part with
  | [] => false
  | c :: rest => ((c =? noteMark)%N && startsWithDigit rest) || hasMark rest
  end.

(** [part.replace('※', '')]: the part without its first reference mark. *)
Fixpoint removeFirstMark (part : jsstring) : jsstring :=
  match part with
  | [] => []
  | c :: rest => if (c =? noteMark)%N then rest else c :: removeFirstMark rest
  end.

(** An element of the rendered text: a piece of text, or the [Annotation]
    component with the text it shows and the note of its tooltip. *)
Inductive Rendered : Type :=
  | PlainText (part : jsstring)
  | Annotation (text note : jsstring).

(** The callback of [parts.map]. A note that is the empty string is
    falsy. *)
Definition renderPart (notes : gmap jsstring jsstring) (part : jsstring)
  : Rendered :=
  if hasMark part then
    match notes !! removeFirstMark part with
    | Some note =>
        if bool_decide (note = []) then PlainText part else Annotation part note
    | None => PlainText part
    end
  else PlainText part.

Definition renderTextWithAnnotations (text : jsstring)
    (notes : gmap jsstring jsstring) : list Rendered :=
  renderPart notes <$> splitNotes text.

(** The text an element shows in the line. *)
Definition shownText (r : Rendered) : jsstring :=
  match r with
  | PlainText part => part
  | Annotation text _ => text
  end.

(** A reference: the mark followed by one digit or more. *)
Definition isReference (part : jsstring) : Prop :=
  ∃ digits, part = noteMark :: digits ∧ digits ≠ [] ∧
            Forall (λ c, isDigit c = true) digits.

Section AnnotatedText.
Implicit Types (text cur part : jsstring).

Lemma splitMarks_concat text cur (mark : option jsstring) :
  concat (splitMarks text cur mark) =
    match mark with Some m => m | None => cur end ++ text.
Proof.
  revert cur mark. induction text as [|c rest IH]; intros cur mark.
  - destruct mark; simpl; by rewrite ?app_nil_r.
  - destruct mark as [m|]; simpl.
    + destruct (isDigit c); [by rewrite IH, <- app_assoc|].
      destruct ((c =? noteMark)%N && startsWithDigit rest); simpl;
        by rewrite IH.
    + destruct ((c =? noteMark)%N && startsWithDigit rest); simpl;
        rewrite IH; [done | by rewrite <- app_assoc].
Qed.

Lemma hasMark_snoc cur (c : N) :
  hasMark (cur ++ [c]) =
    hasMark cur || (bool_decide (last cur = Some noteMark) && isDigit c).
Proof.
  induction cur as [|x cur IH]; simpl.
  - by rewrite andb_false_r.
  - rewrite IH. destruct cur as [|y cur]; simpl.
    + destruct (N.eqb_spec x noteMark) as [->|Hx]; simpl.
      * by destruct (isDigit c).
      * rewrite bool_decide_eq_false_2 by congruence. done.
    + by rewrite orb_assoc.
Qed.

(** Every piece of the split that contains a reference is a reference. *)
Lemma splitMarks_parts text cur (mark : option jsstring) :
  match mark with
  | Some m =>
      ∃ digits, m = noteMark :: digits ∧
                Forall (λ c, isDigit c = true) digits ∧
                (digits ≠ [] ∨ startsWithDigit text = true)
  | None =>
      hasMark cur = false ∧
      (last cur = Some noteMark → startsWithDigit text = false)
  end →
  Forall (λ part, hasMark part = true → isReference part)
         (splitMarks text cur mark).
Proof.
  revert cur mark. induction text as [|c rest IH]; intros cur mark Hinv.
  - destruct mark as [m|]; simpl.
    + destruct Hinv as (digits & -> & Hd & [Hne|Hs]); [|done].
      repeat constructor; [|done]. intros _. by exists digits.
    + destruct Hinv as [Hcur _]. repeat constructor. congruence.
  - destruct mark as [m|]; simpl.
    + destruct Hinv as (digits & -> & Hd & Hne).
      destruct (isDigit c) eqn:Hc.
      * apply IH. exists (digits ++ [c]). split; [done|]. split.
        -- apply Forall_app. split; [done|]. by constructor.
        -- left. by destruct digits.
      * assert (digits ≠ []) as Hne' by (destruct Hne as [?|Hs]; [done|];
                                         simpl in Hs; congruence).
        constructor; [intros _; by exists digits|].
        destruct ((c =? noteMark)%N && startsWithDigit rest) eqn:Hstart.
        -- apply andb_true_iff in Hstart as [->%N.eqb_eq Hs].
           constructor; [done|]. apply IH. exists []. split; [done|].
           split; [constructor | by right].
        -- apply IH. split; [simpl; by rewrite andb_false_r|].
           intros [= ->]. by rewrite N.eqb_refl in Hstart.
    + destruct Hinv as [Hcur Hlast].
      destruct ((c =? noteMark)%N && startsWithDigit rest) eqn:Hstart.
      * apply andb_true_iff in Hstart as [->%N.eqb_eq Hs].
        constructor; [congruence|]. apply IH. exists []. split; [done|].
        split; [constructor | by right].
      * apply IH. split.
        -- rewrite hasMark_snoc, Hcur. simpl.
           destruct (decide (last cur = Some noteMark)) as [Hl|Hl].
           ++ specialize (Hlast Hl). simpl in Hlast. rewrite Hlast.
              by rewrite andb_false_r.
           ++ by rewrite bool_decide_eq_false_2.
        -- rewrite last_snoc. intros [= ->].
           by rewrite N.eqb_refl in Hstart.
Qed.
End AnnotatedText.

(** X19. Rendering a text with annotations loses nothing of it: the texts
    shown by the rendered elements, one after the other, are the text. *)
Theorem renderTextWithAnnotations_text (text : jsstring)
    (notes : gmap jsstring jsstring) :
  concat (shownText <$> renderTextWithAnnotations text notes) = text.
Proof.
  unfold renderTextWithAnnotations. rewrite <- list_fmap_compose.
  assert (shownText ∘ renderPart notes <$> splitNotes text =
          id <$> splitNotes text) as ->.
  { apply list_fmap_ext. intros _ part _. unfold renderPart. simpl.
    repeat case_match; done. }
  rewrite list_fmap_id. unfold splitNotes. by rewrite splitMarks_concat.
Qed.

(** X20. Every annotation in the rendered text shows a reference, the
    mark followed by one digit or more, and its note is the note stored
    under those digits, which is not empty. *)
Theorem renderTextWithAnnotations_notes (text : jsstring)
    (notes : gmap jsstring jsstring) (shown note : jsstring) :
  Annotation shown note ∈ renderTextWithAnnotations text notes →
  ∃ digits, shown = noteMark :: digits ∧ digits ≠ [] ∧
            Forall (λ c, isDigit c = true) digits ∧
            notes !! digits = Some note ∧ note ≠ [].
Proof.
  unfold renderTextWithAnnotations.
  intros (part & Heq & Hin)%list_elem_of_fmap.
  unfold renderPart in Heq.
  destruct (hasMark part) eqn:Hmark; [|done].
  destruct (notes !! removeFirstMark part) as [n|] eqn:Hn; [|done].
  case_bool_decide as Hempty; [done|]. injection Heq as -> ->.
  assert (hasMark [] = false ∧
          (last (A:=N) [] = Some noteMark → startsWithDigit text = false))
    as Hstart by (split; [done | intros [=]]).
  pose proof (splitMarks_parts text [] None Hstart) as Hparts.
  rewrite Forall_forall in Hparts.
  destruct (Hparts part Hin Hmark) as (digits & -> & Hne & Hd).
  exists digits. simpl in Hn. by repeat split.
Qed.

(** A text with two references, one of them with a note. *)
Definition sample_text : jsstring :=
  lit "ab" ++ [noteMark] ++ lit "12c" ++ [noteMark] ++ lit "3".

Definition sample_notes : gmap jsstring jsstring :=
  {[ lit "12" := lit "a note" ]}.

Lemma renderTextWithAnnotations_notes_witness :
  Annotation (noteMark :: lit "12") (lit "a note")
    ∈ renderTextWithAnnotations sample_text sample_notes ∧
  ∃ digits, noteMark :: lit "12" = noteMark :: digits ∧ digits ≠ [] ∧
            Forall (λ c, isDigit c = true) digits ∧
            sample_notes !! digits = Some (lit "a note") ∧ lit "a note" ≠ [].
Proof.
  assert (Annotation (noteMark :: lit "12") (lit "a note")
            ∈ renderTextWithAnnotations sample_text sample_notes) as Hin.
  { vm_compute. apply list_elem_of_further, list_elem_of_here. }
  split; [exact Hin|].
  exact (renderTextWithAnnotations_notes sample_text sample_notes _ _ Hin).
Defined.

(** The sample text is rendered as text, annotation, text, text, text:
    the second reference has no note and stays as it is. *)
Example sample_rendering :
  renderTextWithAnnotations sample_text sample_notes =
  [ PlainText (lit "ab"); Annotation (noteMark :: lit "12") (lit "a note");
    PlainText (lit "c"); PlainText (noteMark :: lit "3"); PlainText [] ].
Proof. vm_compute. reflexivity. Qed.

(** ** Typing an answer (handleAnswerChange) and the course of a session *)

(** What a call of [handleAnswerChange] does: it sets the answers of the
    state, it throws (the display index has no question, and the type of
    [undefined] is read), or it assigns beyond the end of the array of
    blanks, which leaves holes in it. *)
Inductive ChangeResult : Type :=
  | Changed (s : QuizState)
  | ChangeThrows
  | ChangeLeavesHoles.

(** [setUserAnswers] with new answers. *)
Definition withUserAnswers (s : QuizState) (newAnswers : gmap jsstring UserAnswer)
  : QuizState :=
  {| qz_userAnswers := newAnswers;
     qz_shuffledQuestions := qz_shuffledQuestions s;
     qz_startTime := qz_startTime s;
     qz_attemptNumber := qz_attemptNumber s;
     qz_questionStates := qz_questionStates s |}.

(** [currentAnswerArray[blankIndex] = value] for an index up to the length
    of the array: the element is replaced, or added at the end. *)
Definition assignAt (blankIndex : nat) (value : jsstring) (l : list jsstring)
  : list jsstring :=
  if bool_decide (blankIndex < length l)%nat then <[blankIndex := value]> l
  else l ++ [value].

(** [handleAnswerChange(displayIndex, value, blankIndex)]. *)
Definition handleAnswerChange (displayIndex : nat) (value : UserAnswer)
    (blankIndex : option nat) (s : QuizState) : ChangeResult :=
  match qz_shuffledQuestions s !! displayIndex with
  | None => ChangeThrows
  | Some question =>
      let key := keyOf displayIndex in
      if bool_decide (q_type (sq_question question) = lit "fill-in-the-blank")
      then
        let currentAnswerArray :=
          match qz_userAnswers s !! key with
          | Some (Arr l) => l
          | _ => []
          end in
        match value, blankIndex with
        | Str v, Some b =>
            if bool_decide (b ≤ length currentAnswerArray)%nat
            then Changed (withUserAnswers s
                            (<[key := Arr (assignAt b v currentAnswerArray)]>
                               (qz_userAnswers s)))
            else ChangeLeavesHoles
        | _, _ =>
            Changed (withUserAnswers s
                       (<[key := Arr currentAnswerArray]> (qz_userAnswers s)))
        end
      else Changed (withUserAnswers s (<[key := value]> (qz_userAnswers s)))
  end.

(** One event of a session as the page allows it: an input of a question
    that is not locked changes, or the grading button, shown while the
    quiz is not finished and enabled when all inputs are filled, is
    pressed. *)
Inductive sessionStep : QuizState → QuizState → Prop :=
  | step_change (s s' : QuizState) (i : nat) (value : UserAnswer)
      (blankIndex : option nat) :
      qz_questionStates s !! keyOf i ≠ Some Correct →
      handleAnswerChange i value blankIndex s = Changed s' →
      sessionStep s s'
  | step_grade (s : QuizState) :
      quizButton s = GradeButton true →
      sessionStep s (handleGradeAnswers s).

Section Session.
Implicit Types (s : QuizState).

Lemma handleAnswerChange_Changed (i : nat) (value : UserAnswer)
    (blankIndex : option nat) s s' :
  handleAnswerChange i value blankIndex s = Changed s' →
  ∃ v, s' = withUserAnswers s (<[keyOf i := v]> (qz_userAnswers s)).
Proof.
  unfold handleAnswerChange. intros H.
  repeat case_match; try done; injection H as <-; eauto.
Qed.

(** X21. Typing into a blank of a fill-in-the-blank question changes that
    blank only: the number of blanks, the other blanks, the answers of the
    other questions and the marks of all questions stay as they are. *)
Theorem handleAnswerChange_blank (i b : nat) (v : jsstring) s
    (q : ShuffledQuestion) (l : list jsstring) :
  qz_shuffledQuestions s !! i = Some q →
  q_type (sq_question q) = lit "fill-in-the-blank" →
  qz_userAnswers s !! keyOf i = Some (Arr l) →
  (b < length l)%nat →
  ∃ s' l',
    handleAnswerChange i (Str v) (Some b) s = Changed s' ∧
    qz_userAnswers s' !! keyOf i = Some (Arr l') ∧
    length l' = length l ∧
    l' !! b = Some v ∧
    (∀ b', b' ≠ b → l' !! b' = l !! b') ∧
    (∀ k, k ≠ keyOf i → qz_userAnswers s' !! k = qz_userAnswers s !! k) ∧
    qz_questionStates s' = qz_questionStates s ∧
    qz_shuffledQuestions s' = qz_shuffledQuestions s.
Proof.
  intros Hq Hty Hl Hb. unfold handleAnswerChange. rewrite Hq, Hl. simpl.
  rewrite (bool_decide_eq_true_2 _ Hty).
  rewrite bool_decide_eq_true_2 by lia.
  unfold assignAt. rewrite bool_decide_eq_true_2 by done.
  eexists _, (<[b := v]> l). split; [reflexivity|]. simpl.
  rewrite lookup_insert_eq. split; [done|].
  split; [by rewrite length_insert|].
  split; [by apply list_lookup_insert_eq|].
  split; [intros b' Hb'; by apply list_lookup_insert_ne|].
  split; [|done]. intros k Hk. by rewrite lookup_insert_ne.
Qed.

Lemma handleAnswerChange_blank_witness :
  (qz_shuffledQuestions sample_graded !! 0%nat =
     Some {| sq_question := sample_blank; originalIndex := 2 |} ∧
   q_type sample_blank = lit "fill-in-the-blank" ∧
   qz_userAnswers sample_graded !! keyOf 0 = Some (Arr [[]; []]) ∧
   (1 < length ([[]; []] : list jsstring))%nat) ∧
  ∃ s' l',
    handleAnswerChange 0 (Str (lit "b")) (Some 1%nat) sample_graded = Changed s' ∧
    qz_userAnswers s' !! keyOf 0 = Some (Arr l') ∧ l' !! 1%nat = Some (lit "b").
Proof.
  assert (qz_userAnswers sample_graded !! keyOf 0 =
          Some (Arr [[]; []])) as Hl by (vm_compute; reflexivity).
  assert (1 < length ([[]; []] : list jsstring))%nat as Hb by (simpl; lia).
  split; [split; [reflexivity | split; [reflexivity | split; [exact Hl | exact Hb]]]|].
  destruct (handleAnswerChange_blank 0 1 (lit "b") sample_graded _ [[]; []]
              eq_refl eq_refl Hl Hb)
    as (s' & l' & Hc & Ha & _ & Hv & _).
  by exists s', l'.
Defined.

Lemma sessionStep_lockedAnswersPass s s' :
  sessionStep s s' → lockedAnswersPass s → lockedAnswersPass s'.
Proof.
  intros [s0 s1 i value blankIndex Hst Hch|s0 Hbutton] Hinv.
  - apply handleAnswerChange_Changed in Hch as [v ->].
    intros j q Hq Hj. simpl in *.
    rewrite lookup_insert_ne; [by apply Hinv|].
    intros Heq%keyOf_inj. by subst.
  - by apply (proj2 lockedAnswersPass_kept).
Qed.

Lemma sessionStep_fixed s s' :
  sessionStep s s' →
  qz_shuffledQuestions s' = qz_shuffledQuestions s ∧
  qz_startTime s' = qz_startTime s ∧
  (qz_attemptNumber s ≤ qz_attemptNumber s')%nat ∧
  ((qz_attemptNumber s ≤ 3)%nat → (qz_attemptNumber s' ≤ 3)%nat).
Proof.
  intros [s0 s1 i value blankIndex Hst Hch|s0 Hbutton].
  - apply handleAnswerChange_Changed in Hch as [v ->]. simpl. by repeat split.
  - destruct (handleGradeAnswers_fields s0) as (_ & _ & -> & -> & ->).
    split; [done|]. split; [done|]. split; [lia|]. intros _.
    unfold quizButton in Hbutton.
    destruct (isFinished s0) eqn:Hfin; [done|].
    unfold isFinished in Hfin. case_bool_decide; [lia|].
    apply orb_false_iff in Hfin as [_ Hthree].
    apply bool_decide_eq_false in Hthree. lia.
Qed.
End Session.

(** One step keeps what a session keeps; so does every state reached. *)
Lemma session_reachable (qs : list ShuffledQuestion) (now : Z)
    (s : QuizState) :
  rtc sessionStep (startQuiz qs now) s →
  lockedAnswersPass s ∧
  (qz_attemptNumber s ≤ 3)%nat ∧
  qz_shuffledQuestions s = qs ∧
  qz_startTime s = now.
Proof.
  revert s. apply rtc_ind_r.
  - destruct (startQuiz_fields qs now) as (_ & _ & -> & -> & ->).
    split; [apply (proj1 lockedAnswersPass_kept)|]. split; [lia|]. done.
  - intros s s' _ Hstep IH. destruct IH as (Hinv & Hn & Hqs & Ht).
    destruct (sessionStep_fixed _ _ Hstep) as (Hqs' & Ht' & _ & Hn').
    split; [by eapply sessionStep_lockedAnswersPass|].
    split; [by apply Hn'|]. split; congruence.
Qed.

(** X22. In every state a session reaches from its start, through typing
    into questions that are not locked and pressing the grading button
    when the page offers it, every question marked correct has an answer
    that passes the check, the answers have been graded at most three
    times, and the questions and the start time are those of the start. *)
Theorem session_invariant (qs : list ShuffledQuestion) (now : Z)
    (s : QuizState) :
  rtc sessionStep (startQuiz qs now) s →
  lockedAnswersPass s ∧
  (qz_attemptNumber s ≤ 3)%nat ∧
  qz_shuffledQuestions s = qs ∧
  qz_startTime s = now.
Proof.
  intros Hreach.
  destruct (session_reachable qs now s Hreach) as (Hinv & Hn & Hqs & Ht).
  by repeat split.
Qed.

(** The sample session from its start: both blanks, the option and the
    quotation are entered, and the answers are graded. *)
Lemma sample_session :
  ∃ s, rtc sessionStep (startQuiz sample_shuffled sample_now) s ∧
       qz_attemptNumber s = 1%nat ∧
       qz_questionStates s !! keyOf 1 = Some Correct.
Proof.
  eexists. split.
  - eapply rtc_l;
      [apply (step_change _ _ 0 (Str (lit "a")) (Some 0%nat));
         [vm_compute; discriminate | vm_compute; reflexivity]|].
    eapply rtc_l;
      [apply (step_change _ _ 0 (Str (lit "x")) (Some 1%nat));
         [vm_compute; discriminate | vm_compute; reflexivity]|].
    eapply rtc_l;
      [apply (step_change _ _ 1 (Str (lit "watashi")) None);
         [vm_compute; discriminate | vm_compute; reflexivity]|].
    eapply rtc_l;
      [apply (step_change _ _ 2 (Str (lit "kokor")) None);
         [vm_compute; discriminate | vm_compute; reflexivity]|].
    eapply rtc_l; [apply step_grade; vm_compute; reflexivity|].
    apply rtc_refl.
  - split; vm_compute; reflexivity.
Qed.

Lemma session_invariant_witness :
  ∃ s, rtc sessionStep (startQuiz sample_shuffled sample_now) s ∧
       qz_attemptNumber s = 1%nat ∧
       lockedAnswersPass s ∧ (qz_attemptNumber s ≤ 3)%nat.
Proof.
  destruct sample_session as (s & Hreach & Hn & _).
  exists s. split; [exact Hreach|]. split; [exact Hn|].
  destruct (session_invariant sample_shuffled sample_now s Hreach)
    as (Hinv & Hle & _).
  by split.
Defined.

(** X23. Whatever the learner did in a session, a question that is marked
    correct when the quiz is finished is scored correct in the attempt
    that is stored, at its original index, and the study time stored is at
    least one second. *)
Theorem session_result_recorded (e : Excerpt) (qs : list ShuffledQuestion)
    (start : Z) (s : QuizState) (now savedAt : Z) (d : nat)
    (sq : ShuffledQuestion) :
  questionsWithShuffledOptions e qs →
  rtc sessionStep (startQuiz qs start) s →
  qz_shuffledQuestions s !! d = Some sq →
  qz_questionStates s !! keyOf d = Some Correct →
  (∃ r, results (getScore (Some e) (Some (finishedAttempt now savedAt s)))
          !! originalIndex sq = Some r ∧
        isCorrect r = true) ∧
  1 ≤ studyTime (finishedAttempt now savedAt s).
Proof.
  intros Hdrawn Hreach Hsq Hst.
  destruct (session_reachable qs start s Hreach) as (Hinv & _ & Hqs & _).
  rewrite <- Hqs in Hdrawn.
  destruct (finishedAttempt_at e s now savedAt d sq Hdrawn Hsq)
    as (orig & Horig & Hans & Hck).
  split; [|apply finishStudyTime_positive].
  eexists. split.
  - rewrite getScore_results_lookup, Horig. simpl.
    by rewrite (gradeQuestion_present orig _ _ _ Hans).
  - simpl. apply Hck. by apply (Hinv d sq).
Qed.

Lemma session_result_recorded_witness :
  ∃ s,
    (questionsWithShuffledOptions sample_excerpt sample_shuffled ∧
     rtc sessionStep (startQuiz sample_shuffled sample_now) s ∧
     qz_shuffledQuestions s !! 1%nat =
       Some {| sq_question := sample_choice; originalIndex := 0 |} ∧
     qz_questionStates s !! keyOf 1 = Some Correct) ∧
    ∃ r, results (getScore (Some sample_excerpt)
                    (Some (finishedAttempt (sample_now + 90500)
                             (sample_now + 90501) s))) !! 0%nat = Some r ∧
         isCorrect r = true.
Proof.
  destruct sample_session as (s & Hreach & _ & Hst).
  assert (qz_shuffledQuestions s !! 1%nat =
          Some {| sq_question := sample_choice; originalIndex := 0 |}) as Hsq.
  { destruct (session_reachable _ _ s Hreach) as (_ & _ & -> & _). reflexivity. }
  exists s. split; [by split; [exact sample_shuffled_drawn|]|].
  exact (proj1 (session_result_recorded sample_excerpt sample_shuffled
                  sample_now s (sample_now + 90500) (sample_now + 90501) 1 _
                  sample_shuffled_drawn Hreach Hsq Hst)).
Defined.

(** ** The rows of the history (RecordsPage) *)

(** The work and the excerpt a row of the history shows, looked up by the
    work id and the numeric excerpt id of the attempt; [None] when the row
    is not rendered. *)
Definition recordRow (works : list Work) (attempt : ScoredAttempt)
  : option (Work * Excerpt) :=
  match find (λ w, bool_decide (w_id w = sa_workId attempt)) works with
  | Some work =>
      match find (λ e, bool_decide (e_id e = sa_excerptId attempt))
                 (w_excerpts work) with
      | Some excerpt => Some (work, excerpt)
      | None => None
      end
  | None => None
  end.

Lemma find_ext {A} (f g : A → bool) (l : list A) :
  (∀ x, f x = g x) → find f l = find g l.
Proof. intros H. induction l as [|x l IH]; simpl; [done|]. by rewrite H, IH. Qed.

(** X24. Every attempt of the history has its row rendered, and the row
    shows the work and the excerpt against which its score was
    computed. *)
Theorem recordRow_found (works : list Work) (answers : UserAnswers)
    (a : ScoredAttempt) :
  a ∈ allAttempts works answers →
  ∃ (work : Work) (excerpt : Excerpt),
    recordRow works a = Some (work, excerpt) ∧
    w_id work = sa_workId a ∧
    e_id excerpt = sa_excerptId a ∧
    sa_score a = getScore (Some excerpt) (Some (sa_attempt a)).
Proof.
  intros (excerpts & excerptId & stored & work & excerpt &
          _ & _ & Hfw & Hfe & _ & Heq)%allAttempts_found.
  exists work, excerpt. simpl in Hfw, Hfe.
  pose proof (find_Some_elem _ _ _ Hfw) as Hw. apply bool_decide_eq_true in Hw.
  pose proof (find_Some_elem _ _ _ Hfe) as He. apply bool_decide_eq_true in He.
  assert (sa_excerptId a = e_id excerpt) as Hid by (by rewrite Heq).
  assert (sa_score a = getScore (Some excerpt) (Some (sa_attempt a))) as Hsc
    by (by rewrite Heq at 1).
  split; [|done]. unfold recordRow. rewrite Hfw.
  rewrite (find_ext _ (λ e, bool_decide (toString (e_id e) = excerptId))),
    Hfe; [done|].
  intros e. rewrite Hid, <- He. apply bool_decide_ext.
  split; [by intros -> | apply toString_inj].
Qed.

Lemma recordRow_found_witness :
  sample_ten_days_old ∈ allAttempts [sample_work] sample_history ∧
  ∃ (work : Work) (excerpt : Excerpt),
    recordRow [sample_work] sample_ten_days_old = Some (work, excerpt) ∧
    w_id work = lit "kokoro".
Proof.
  assert (sample_ten_days_old ∈ allAttempts [sample_work] sample_history) as Hin.
  { vm_compute.
    repeat (first [apply list_elem_of_here | apply list_elem_of_further]). }
  split; [exact Hin|].
  destruct (recordRow_found [sample_work] sample_history _ Hin)
    as (work & excerpt & Hrow & Hw & _).
  by exists work, excerpt.
Defined.

(** X25. The history is empty, and the page says that there are no records
    yet, exactly when no attempt is stored for a work and an excerpt of
    the content. *)
Theorem categorizedAttempts_empty_iff (LocalTZA : Z → bool → Z) (works : list Work) (now : Z)
    (answers : UserAnswers) :
  categorizedAttempts LocalTZA works now answers = [] ↔
  allAttempts works answers = [].
Proof.
  pose proof (listed_perm LocalTZA works now answers) as Hperm. split.
  - intros Hnil. rewrite Hnil in Hperm. simpl in Hperm.
    by apply Permutation_nil_l in Hperm.
  - intros Hnil.
    destruct (categorizedAttempts LocalTZA works now answers) as [|[key data] l]
      eqn:E; [done|].
    destruct (categorizedAttempts_listed LocalTZA now works answers key data)
      as (Hb & _ & Hne); [rewrite E; apply list_elem_of_here|].
    rewrite Hnil in Hb. by rewrite Hb in Hne.
Qed.

(** ** Opening and closing the sections of the history *)

(** [toggleSection]: [{ ...prev, [section]: !prev[section] }]; a section
    without an entry counts as closed. *)
Definition toggleSection (section : jsstring) (prev : gmap jsstring bool)
  : gmap jsstring bool :=
  <[section := negb (default false (prev !! section))]> prev.

(** [!!openSections[key]]: whether the section is shown open. *)
Definition isOpen (openSections : gmap jsstring bool) (key : jsstring) : bool :=
  default false (openSections !! key).

(** X26. Toggling a section opens it when it is closed and closes it when
    it is open, leaves every other section as it is, and toggling it
    twice shows every section as before. *)
Theorem toggleSection_twice (section key : jsstring) (prev : gmap jsstring bool) :
  isOpen (toggleSection section prev) key =
    (if decide (key = section) then negb (isOpen prev key) else isOpen prev key) ∧
  isOpen (toggleSection section (toggleSection section prev)) key =
    isOpen prev key.
Proof.
  unfold isOpen, toggleSection.
  destruct (decide (key = section)) as [->|Hne].
  - rewrite !lookup_insert_eq. simpl. by rewrite negb_involutive.
  - by rewrite !lookup_insert_ne.
Qed.
